(** * AEI tag reader and queue monitor: a shallow embedding

    The development follows the two programs of the repository:

    - [bin/read_tags.py]: the serial reader.  Its pure part is the bit codec
      ([unpack_6bit_to_8bit]), the field decoder ([bits_to_int], [car_number],
      [car_owner]) and the body of the read loop, which keeps [last_tag],
      appends to [/tmp/tags.log] and creates [/dev/shm/*.tag] files.
    - [bin/monitor_tag_directory.py]: the polling monitor, which scans the
      [*.tag] files, decides whether to emit a report, reads and removes the
      files and tries to send the report up to five times.

    Python integers are unbounded, so they are modelled by [Z]; a [bytes]
    value is a list of integers.  Exceptions are modelled by [option]. *)

From Stdlib Require Import ZArith Lia List String Ascii DecimalString DecimalZ.
From Equations Require Import Equations.
From stdpp Require Import gmap strings.

Local Open Scope Z_scope.

(** ** Python helpers *)

Module Py.

(** [range(n)] as the list of its values. *)
Definition range (n : Z) : list Z := map Z.of_nat (seq 0 (Z.to_nat n)).

(** [l[k]] on a Python list: a negative index counts from the end, an index
    outside [-len, len) raises [IndexError] (here [None]). *)
Definition index {A : Type} (l : list A) (k : Z) : option A :=
  let n := Z.of_nat (List.length l) in
  if (0 <=? k) && (k <? n) then nth_error l (Z.to_nat k)
  else if (- n <=? k) && (k <? 0) then nth_error l (Z.to_nat (n + k))
  else None.

(** [chr(n)] for the code points the decoder uses (all below 128). *)
Definition chr (n : Z) : ascii := ascii_of_N (Z.to_N n).

(** [str(n)] on an integer: its decimal digits, with a sign when negative. *)
Definition str (n : Z) : string := NilZero.string_of_int (Z.to_int n).

(** The line feed that ends the lines the programs write. *)
Definition nl : string := String "010"%char EmptyString.

(** The ASCII characters that [str.strip()] removes. *)
Definition isspace (c : ascii) : bool :=
  let n := N_of_ascii c in
  (((9 <=? n) && (n <=? 13)) || ((28 <=? n) && (n <=? 32)))%N.

Fixpoint lstrip (s : string) : string :=
  match s with
  | String c rest => if isspace c then lstrip rest else s
  | EmptyString => EmptyString
  end.

Definition rev_string (s : string) : string :=
  string_of_list_ascii (List.rev (list_ascii_of_string s)).

Definition strip (s : string) : string :=
  rev_string (lstrip (rev_string (lstrip s))).

End Py.

(** ** The bit codec: [unpack_6bit_to_8bit] *)

Module Codec.

(** The inner loop [while buffer_length >= 8: ...]: it emits the top eight
    bits of the buffer and keeps the [shift_amount] low ones. *)
Equations? drain (bit_buffer buffer_length : Z) (output_bytes : list Z)
  : Z * Z * list Z by wf (Z.to_nat buffer_length) lt :=
  drain bit_buffer buffer_length output_bytes with Z_le_gt_dec 8 buffer_length := {
    | left _ =>
        drain (Z.land bit_buffer (Z.shiftl 1 (buffer_length - 8) - 1))
              (buffer_length - 8)
              (output_bytes ++
                 [Z.land (Z.shiftr bit_buffer (buffer_length - 8)) 255]);
    | right _ => (bit_buffer, buffer_length, output_bytes) }.
Proof. lia. Qed.

(** One iteration of [for byte in input_bytes]. *)
Definition unpack_step (st : Z * Z * list Z) (byte : Z) : Z * Z * list Z :=
  let '(bit_buffer, buffer_length, output_bytes) := st in
  let six_bits := Z.land byte 63 in
  drain (Z.lor (Z.shiftl bit_buffer 6) six_bits) (buffer_length + 6) output_bytes.

Definition unpack_loop (input_bytes : list Z) : Z * Z * list Z :=
  fold_left unpack_step input_bytes (0, 0, []).

Definition unpack_6bit_to_8bit (input_bytes : list Z) : list Z :=
  snd (unpack_loop input_bytes).

(** The stream of six-bit groups, read as one big-endian number. *)
Definition sixbit_stream (input_bytes : list Z) : Z :=
  fold_left (fun acc b => acc * 64 + Z.land b 63) input_bytes 0.

(** A byte sequence read as one big-endian number. *)
Definition be_int (bs : list Z) : Z :=
  fold_left (fun acc b => acc * 256 + b) bs 0.

Definition is_byte (b : Z) : Prop := 0 <= b < 256.

End Codec.

(** ** The field decoder: [bits_to_int], [car_number], [car_owner] *)

Module Decoder.

(** The eight appends of the inner loop [for i in range(7, -1, -1)]. *)
Definition byte_bits (byte : Z) : list bool :=
  map (fun i => Z.land (Z.shiftr byte i) 1 =? 1) [7; 6; 5; 4; 3; 2; 1; 0].

(** The list [bit_array] that [car_number] and [car_owner] build first. *)
Definition to_bit_array (input_bytes : list Z) : list bool :=
  flat_map byte_bits input_bytes.

(** One iteration of the loop of [bits_to_int]; [None] is a raised
    [IndexError], which ends the call. *)
Definition bits_body (bit_array : list bool) (start_bit slice_len : Z)
    (number : option Z) (i : Z) : option Z :=
  match number with
  | None => None
  | Some number =>
      match Py.index bit_array (start_bit + i) with
      | None => None
      | Some bit =>
          if bit then
            let power := slice_len - 1 - i in
            Some (number + Z.shiftl 1 power)
          else Some number
      end
  end.

Definition bits_to_int (bit_array : list bool) (start_bit end_bit : Z)
  : option Z :=
  if (start_bit >=? end_bit) || (end_bit >? Z.of_nat (List.length bit_array))
  then Some 0
  else
    let slice_len := end_bit - start_bit in
    fold_left (bits_body bit_array start_bit slice_len)
              (Py.range slice_len) (Some 0).

Definition car_number (input_bytes : list Z) : option Z :=
  let bit_array := to_bit_array input_bytes in
  let start_index := 26 in
  let end_index := 45 in
  let call_start_bit := start_index in
  let call_end_bit := end_index + 1 in
  bits_to_int bit_array call_start_bit call_end_bit.

Definition decode_c1 (n1 : Z) : ascii :=
  if (0 <=? n1) && (n1 <=? 25) then Py.chr (n1 + 65) else "?"%char.

Definition decode_c2_c4 (n : Z) : ascii :=
  if n =? 0 then " "%char
  else if (1 <=? n) && (n <=? 26) then Py.chr (n + 64)
  else "?"%char.

(** Step 5 of [car_owner]: the four digits of [value].  Python's [//] is
    floor division, which is [Z.div] for a positive divisor. *)
Definition base27_digits (value : Z) : Z * Z * Z * Z :=
  let POW_27_3 := 27 ^ 3 in
  let POW_27_2 := 27 ^ 2 in
  let POW_27_1 := 27 in
  let n1 := value / POW_27_3 in
  let remainder_n1 := value - n1 * POW_27_3 in
  let n2 := remainder_n1 / POW_27_2 in
  let remainder_n2 := remainder_n1 - n2 * POW_27_2 in
  let n3 := remainder_n2 / POW_27_1 in
  let remainder_n3 := remainder_n2 - n3 * POW_27_1 in
  let n4 := remainder_n3 in
  (n1, n2, n3, n4).

Definition car_owner (input_bytes : list Z) : option string :=
  let bit_array := to_bit_array input_bytes in
  let start_index := 7 in
  let end_index := 25 in
  let call_start_bit := start_index in
  let call_end_bit := end_index + 1 in
  match bits_to_int bit_array call_start_bit call_end_bit with
  | None => None
  | Some value =>
      let '(n1, n2, n3, n4) := base27_digits value in
      let c1 := decode_c1 n1 in
      let c2 := decode_c2_c4 n2 in
      let c3 := decode_c2_c4 n3 in
      let c4 := decode_c2_c4 n4 in
      Some (String c1 (String c2 (String c3 (String c4 EmptyString))))
  end.

(** Bit [k] of a byte sequence in MSB-first numbering: bit 0 is the most
    significant bit of the first byte. *)
Definition bit_at (input_bytes : list Z) (k : nat) : bool :=
  Z.testbit (nth (k / 8)%nat input_bytes 0) (Z.of_nat (7 - k mod 8)).

(** A list of bits, most significant first, as an unsigned number. *)
Definition be_bits (bits : list bool) : Z :=
  fold_left (fun acc b => 2 * acc + Z.b2z b) bits 0.

(** The bits [first .. first + count - 1] of a byte sequence as an unsigned
    big-endian number. *)
Definition field_value (input_bytes : list Z) (first count : nat) : Z :=
  be_bits (map (bit_at input_bytes) (seq first count)).

(** The characters an owner mark may hold. *)
Definition owner_char (c : ascii) : bool :=
  let n := N_of_ascii c in
  ((65 <=? n) && (n <=? 90))%N || Ascii.eqb c " " || Ascii.eqb c "?".

End Decoder.

(** ** The read loop of [read_tags.py] *)

Module Reader.
Import Codec Decoder.

(** What the loop keeps and writes: the global [last_tag], the lines appended
    to [/tmp/tags.log], and the files written under [/dev/shm], each with its
    name and content, in the order of the writes. *)
Record reader := {
  last_tag : string;
  tags_log : list string;
  shm : list (string * string)
}.

(** The state when the loop is entered: [last_tag = ''], nothing written. *)
Definition initial : reader :=
  {| last_tag := EmptyString; tags_log := []; shm := [] |}.

(** Lines 391 to 394: from a raw packet to the text of [current_tag]. *)
Definition decode_tag (raw_packet : list Z) : option string :=
  let unpacked := unpack_6bit_to_8bit raw_packet in
  match car_owner unpacked with
  | None => None
  | Some owner =>
      match car_number unpacked with
      | None => None
      | Some number => Some (owner ++ " " ++ Py.str number)%string
      end
  end.

Definition log_line (last_read current_tag : string) : string :=
  (last_read ++ "," ++ current_tag ++ Py.nl)%string.

Definition tag_file (last_read : string) (i : Z) (current_tag : string)
  : string * string :=
  ("/dev/shm/" ++ last_read ++ "-" ++ Py.str i ++ ".tag",
   current_tag ++ Py.nl)%string.

(** Lines 398 to 406: what the loop does with a decoded tag.  [last_read]
    is the text of the time of the read, [i] the index of the packet in the
    read. *)
Definition observe (last_read : string) (i : Z) (current_tag : string)
    (st : reader) : reader :=
  let tags_log' := tags_log st ++ [log_line last_read current_tag] in
  if negb (String.eqb (last_tag st) current_tag) then
    {| last_tag := current_tag;
       tags_log := tags_log';
       shm := shm st ++ [tag_file last_read i current_tag] |}
  else
    {| last_tag := last_tag st; tags_log := tags_log'; shm := shm st |}.

(** The body of [for i, raw_packet in enumerate(matches)]. *)
Definition handle_packet (last_read : string) (i : Z) (raw_packet : list Z)
    (st : reader) : option reader :=
  match decode_tag raw_packet with
  | None => None
  | Some current_tag => Some (observe last_read i current_tag st)
  end.

Fixpoint handle_matches (last_read : string) (i : Z)
    (matches : list (list Z)) (st : reader) : option reader :=
  match matches with
  | [] => Some st
  | raw_packet :: rest =>
      match handle_packet last_read i raw_packet st with
      | None => None
      | Some st' => handle_matches last_read (i + 1) rest st'
      end
  end.

(** A decoded tag with the time of its read and its index in the read. *)
Record observation := {
  obs_time : string;
  obs_index : Z;
  obs_tag : string
}.

Definition observe_all (obs : list observation) (st : reader) : reader :=
  fold_left (fun st o => observe (obs_time o) (obs_index o) (obs_tag o) st)
            obs st.

Definition entry_of (o : observation) : string * string :=
  tag_file (obs_time o) (obs_index o) (obs_tag o).

End Reader.

(** ** One poll of [monitor_tag_directory.py] *)

Module Monitor.

(** A [*.tag] file of the monitored directory: its creation time, its
    content, and whether [open] and [os.remove] succeed on it.  Times are
    Python floats counting seconds; here they are integers. *)
Record tagfile := {
  ctime : Z;
  content : string;
  readable : bool;
  removable : bool
}.

(** [os.path.getctime]; a missing file raises [OSError], which nothing in
    [monitor_directory] catches. *)
Definition getctime (fs : gmap string tagfile) (file_path : string)
  : option Z :=
  ctime <$> fs !! file_path.

(** [process_tag_file]: the content, stripped, or [None] when the file cannot
    be read; a file that was read is removed when [os.remove] succeeds. *)
Definition process_tag_file (filepath : string) (fs : gmap string tagfile)
  : option string * gmap string tagfile :=
  match fs !! filepath with
  | None => (None, fs)
  | Some f =>
      if readable f then
        (Some (Py.strip (content f)),
         if removable f then delete filepath fs else fs)
      else (None, fs)
  end.

(** The first loop over [tag_files], lines 80 to 87; [time_time k] is what
    [time.time()] returns in iteration [k]. *)
Fixpoint scan (time_time : nat -> Z) (fs : gmap string tagfile)
    (tag_files : list string) (k : nat) (emit : bool) : option bool :=
  match tag_files with
  | [] => Some emit
  | file_path :: rest =>
      match getctime fs file_path with
      | None => None
      | Some creation_timestamp =>
          if time_time k - creation_timestamp <? 300
          then scan time_time fs rest (S k) false
          else scan time_time fs rest (S k) true
      end
  end.

(** The report: the rows of the table, each a creation time and a tag text,
    and the count of the footer. *)
Record report := {
  rows : list (Z * string);
  total_tags : nat
}.

(** The second loop over [tag_files], lines 107 to 120. *)
Fixpoint compose (tag_files : list string) (fs : gmap string tagfile)
    (body : list (Z * string)) (total : nat)
  : option (report * gmap string tagfile) :=
  match tag_files with
  | [] => Some ({| rows := body; total_tags := total |}, fs)
  | file_path :: rest =>
      match getctime fs file_path with
      | None => None
      | Some creation_timestamp =>
          let '(processed_content, fs') := process_tag_file file_path fs in
          match processed_content with
          | Some text =>
              compose rest fs' (body ++ [(creation_timestamp, text)]) (S total)
          | None => compose rest fs' body total
          end
      end
  end.

(** The loop [for i in range(5)], lines 132 to 140: [send i] is the result
    of [send_outlook_email] in attempt [i].  The result is whether an attempt
    succeeded, the number of attempts and the seconds slept. *)
Fixpoint retry (send : nat -> bool) (attempts_left : list nat)
    (attempts : nat) (slept : Z) : bool * nat * Z :=
  match attempts_left with
  | [] => (false, attempts, slept)
  | i :: rest =>
      if send i then (true, S attempts, slept)
      else retry send rest (S attempts) (slept + 10 * Z.of_nat i)
  end.

Definition send_report (send : nat -> bool) : bool * nat * Z :=
  retry send (seq 0 5) 0%nat 0.

(** What one iteration of [while True] leaves behind. *)
Record outcome := {
  files_after : gmap string tagfile;
  flushed : option report;
  attempts_made : nat;
  delivered : bool
}.

(** One iteration of the main loop, for the listing [tag_files] that
    [glob.glob] returned; [None] is an uncaught exception. *)
Definition poll (time_time : nat -> Z) (send : nat -> bool)
    (tag_files : list string) (fs : gmap string tagfile) : option outcome :=
  let idle := {| files_after := fs; flushed := None;
                 attempts_made := 0; delivered := false |} in
  match tag_files with
  | [] => Some idle
  | _ :: _ =>
      match scan time_time fs tag_files 0 false with
      | None => None
      | Some false => Some idle
      | Some true =>
          match compose tag_files fs [] 0 with
          | None => None
          | Some (rep, fs') =>
              let '(sent, attempts, _) := send_report send in
              Some {| files_after := fs'; flushed := Some rep;
                      attempts_made := attempts; delivered := sent |}
          end
      end
  end.

(** The age test as the comments of the first loop describe it: every file
    is at least 300 seconds old. *)
Definition all_older (now : Z) (fs : gmap string tagfile)
    (tag_files : list string) : bool :=
  forallb (fun p => match getctime fs p with
                    | Some c => negb (now - c <? 300)
                    | None => false
                    end) tag_files.

End Monitor.

(** ** Concrete inputs used below *)

Module Samples.
Import Reader Monitor.

(** A raw packet of eight zero bytes; it decodes to the tag ["A    0"]. *)
Definition zero_packet : list Z := [0; 0; 0; 0; 0; 0; 0; 0].

(** The reader after its first read, which held the tag ["A    0"]. *)
Definition seen_A0 : reader := observe "0.5" 0 "A    0" initial.

Definition tag_entry (created : Z) (text : string) : tagfile :=
  {| ctime := created; content := (text ++ Py.nl)%string;
     readable := true; removable := true |}.

(** A queue of two entries: [a.tag] created at second 390 and [b.tag]
    created at second 0. *)
Definition two_entries : gmap string tagfile :=
  <[ "a.tag"%string := tag_entry 390 "A    0" ]>
    (<[ "b.tag"%string := tag_entry 0 "B    1" ]> ∅).

(** A queue of one entry, created at second 0. *)
Definition one_entry : gmap string tagfile :=
  <[ "b.tag"%string := tag_entry 0 "B    1" ]> ∅.

End Samples.

(** ** The first unpacker: [process_bytes] *)

Module ProcessBytes.

(** The inner loop [while bits_in_buffer >= 8: ...] of [process_bytes]; the
    buffer is only read, never cut down. *)
Equations? emit_bytes (bit_buffer bits_in_buffer : Z) (output : list Z)
  : Z * list Z by wf (Z.to_nat bits_in_buffer) lt :=
  emit_bytes bit_buffer bits_in_buffer output
    with Z_le_gt_dec 8 bits_in_buffer := {
    | left _ =>
        emit_bytes bit_buffer (bits_in_buffer - 8)
          (output ++
             [Z.land (Z.shiftr bit_buffer (bits_in_buffer - 8)) 255]);
    | right _ => (bits_in_buffer, output) }.
Proof. lia. Qed.

(** One iteration of [for byte in input_bytes]. *)
Definition process_step (st : Z * Z * list Z) (byte : Z) : Z * Z * list Z :=
  let '(bit_buffer, bits_in_buffer, output) := st in
  let byte := Z.land byte 63 in
  let bit_buffer := Z.lor (Z.shiftl bit_buffer 6) byte in
  let '(bits_in_buffer, output) :=
    emit_bytes bit_buffer (bits_in_buffer + 6) output in
  (bit_buffer, bits_in_buffer, output).

Definition process_loop (input_bytes : list Z) : Z * Z * list Z :=
  fold_left process_step input_bytes (0, 0, []).

Definition process_bytes (input_bytes : list Z) : list Z :=
  snd (process_loop input_bytes).

End ProcessBytes.

(** ** The owner mark as a function of the owner value *)

Module OwnerMark.
Import Decoder.

(** Lines 280 to 308 of [car_owner]: from the value of bits 7 to 25 to the
    four characters. *)
Definition owner_text (value : Z) : string :=
  let '(n1, n2, n3, n4) := base27_digits value in
  let c1 := decode_c1 n1 in
  let c2 := decode_c2_c4 n2 in
  let c3 := decode_c2_c4 n3 in
  let c4 := decode_c2_c4 n4 in
  String c1 (String c2 (String c3 (String c4 EmptyString))).

End OwnerMark.

(** ** An invariant of the queue files the read loop writes *)

Module QueueInvariant.
Import Reader.

(** What the loop keeps true of the queue files it has written, from the
    start on: neighbours hold different texts, and the newest holds
    [last_tag]. *)
Definition queue_ok (st : reader) : Prop :=
  (forall pre a b post,
     map snd (shm st) = pre ++ a :: b :: post -> a <> b) /\
  (forall pre c,
     map snd (shm st) = pre ++ [c] -> c = (last_tag st ++ Py.nl)%string).

End QueueInvariant.

(** ** Frames in a read: the pattern of the read loop *)

Module Frames.

(** The bytes of the pattern [b'\xfa\x00\x07(.*?)\xf5']: the start of a
    frame and its end. *)
Definition start_marker : list Z := [250; 0; 7].
Definition end_marker : Z := 245.

(** The group [(.*?)] followed by the end marker, tried at the head of
    [data]: the shortest run of bytes, of any value since the pattern is
    compiled with [re.DOTALL], up to the first end marker.  The result is
    the group and the number of bytes matched, the end marker counted. *)
Fixpoint lazy_group (data : list Z) : option (list Z * nat) :=
  match data with
  | [] => None
  | b :: rest =>
      if b =? end_marker then Some ([], 1%nat)
      else match lazy_group rest with
           | Some (payload, n) => Some (b :: payload, S n)
           | None => None
           end
  end.

(** The whole pattern tried at the head of [data]. *)
Definition match_here (data : list Z) : option (list Z * nat) :=
  match data with
  | a :: b :: c :: rest =>
      if (a =? 250) && (b =? 0) && (c =? 7) then
        match lazy_group rest with
        | Some (payload, n) => Some (payload, (3 + n)%nat)
        | None => None
        end
      else None
  | _ => None
  end.

(** [pattern.findall(data)]: the scan tries the pattern at each position in
    turn; after a match it goes on behind the matched bytes.  [skip] is the
    number of bytes still covered by the last match. *)
Fixpoint findall_from (data : list Z) (skip : nat) : list (list Z) :=
  match data with
  | [] => []
  | _ :: rest =>
      match skip with
      | S k => findall_from rest k
      | O =>
          match match_here data with
          | Some (payload, n) => payload :: findall_from rest (Nat.pred n)
          | None => findall_from rest 0
          end
      end
  end.

Definition findall (data : list Z) : list (list Z) := findall_from data 0.

(** A payload as the reader sends it: between the start marker and the end
    marker. *)
Definition frame (payload : list Z) : list Z :=
  start_marker ++ payload ++ [end_marker].

End Frames.

(** ** The status response: [get_reader_status] *)

Module Status.

(** What [get_reader_status] logs for the bytes it received: nothing for an
    empty response, else the RF flag, the frequency and the power; [None]
    is the [IndexError] of [received_data[4]] or [received_data[6]]. *)
Definition get_reader_status (received_data : list Z)
  : option (option (Z * Z * Z)) :=
  if Z.of_nat (List.length received_data) >? 0 then
    match Py.index received_data 4 with
    | None => None
    | Some b1 =>
        match Py.index received_data 6 with
        | None => None
        | Some b2 =>
            let status := Z.land (Z.shiftr b1 6) 1 in
            let frequency := Z.land b1 3 in
            let power := b2 in
            Some (Some (status, frequency, power))
        end
    end
  else Some None.

End Status.

(** ** The plain-text body: [strip_html_tags_regex] *)

Module StripTags.

(** The pattern [<.*?>] tried behind a [<]: the number of characters up to
    and with the first [>], when no line feed comes before it ([.] does
    not match a line feed). *)
Fixpoint tag_end (s : string) : option nat :=
  match s with
  | EmptyString => None
  | String c rest =>
      if Ascii.eqb c ">" then Some 1%nat
      else if Ascii.eqb c "010" then None
      else option_map S (tag_end rest)
  end.

(** [re.sub(clean, '', html_string)]: every match is left out, every other
    character is kept; [skip] counts the characters still covered by the
    last match. *)
Fixpoint strip_from (s : string) (skip : nat) : string :=
  match s with
  | EmptyString => EmptyString
  | String c rest =>
      match skip with
      | S k => strip_from rest k
      | O =>
          if Ascii.eqb c "<" then
            match tag_end rest with
            | Some n => strip_from rest n
            | None => String c (strip_from rest 0)
            end
          else String c (strip_from rest 0)
      end
  end.

Definition strip_html_tags_regex (html_string : string) : string :=
  strip_from html_string 0.

(** No [<] of the text opens a tag: none has a [>] behind it on its line. *)
Fixpoint tag_free (s : string) : Prop :=
  match s with
  | EmptyString => True
  | String c rest =>
      (c = "<"%char -> tag_end rest = None) /\ tag_free rest
  end.

End StripTags.

(** ** The rows of a report *)

Module ReportRows.
Import Monitor.


End ReportRows.

(** ** Facts about the bit codec *)

Module CodecFacts.
Import Codec.

Lemma land_low_mask (a k : Z) :
  0 <= k -> Z.land a (Z.shiftl 1 k - 1) = a mod 2 ^ k.
Proof.
  intros Hk. rewrite <- Z.land_ones by lia.
  reflexivity.
Qed.

Lemma land_255 (a : Z) : Z.land a 255 = a mod 256.
Proof. change 255 with (Z.ones 8). now rewrite Z.land_ones by lia. Qed.

Lemma land_63 (a : Z) : Z.land a 63 = a mod 64.
Proof. change 63 with (Z.ones 6). now rewrite Z.land_ones by lia. Qed.

Lemma six_bits_range (b : Z) : 0 <= Z.land b 63 < 64.
Proof. rewrite land_63. apply Z.mod_pos_bound. lia. Qed.

Lemma lor_shiftl_6 (a s : Z) :
  0 <= s < 64 -> Z.lor (Z.shiftl a 6) s = a * 64 + s.
Proof.
  intros Hs.
  assert (Hdisj : Z.land (Z.shiftl a 6) s = 0).
  { apply Z.bits_inj'. intros n Hn.
    rewrite Z.land_spec, Z.bits_0.
    destruct (Z_lt_le_dec n 6) as [Hlt | Hge].
    - rewrite Z.shiftl_spec_low by lia. reflexivity.
    - replace (Z.testbit s n) with false; [apply andb_false_r |].
      symmetry. destruct (Z.eq_dec s 0) as [-> | Hne]; [apply Z.bits_0 |].
      apply Z.bits_above_log2; [lia |].
      apply Z.log2_lt_pow2; [lia |].
      apply Z.lt_le_trans with (2 ^ 6); [lia |].
      apply Z.pow_le_mono_r; lia. }
  rewrite <- Z.lxor_lor by exact Hdisj.
  rewrite <- Z.add_nocarry_lxor by exact Hdisj.
  rewrite Z.shiftl_mul_pow2 by lia. reflexivity.
Qed.

Lemma be_int_snoc (bs : list Z) (b : Z) :
  be_int (bs ++ [b]) = be_int bs * 256 + b.
Proof. unfold be_int. rewrite fold_left_app. reflexivity. Qed.

Lemma sixbit_stream_snoc (bs : list Z) (b : Z) :
  sixbit_stream (bs ++ [b]) = sixbit_stream bs * 64 + Z.land b 63.
Proof. unfold sixbit_stream. rewrite fold_left_app. reflexivity. Qed.

(** What the inner loop computes, for a buffer that holds [buffer_length]
    bits. *)
Lemma drain_spec (bit_buffer buffer_length : Z) (output_bytes : list Z) :
  0 <= buffer_length ->
  0 <= bit_buffer < 2 ^ buffer_length ->
  exists buf' out',
    drain bit_buffer buffer_length output_bytes
      = (buf', buffer_length mod 8, out') /\
    0 <= buf' < 2 ^ (buffer_length mod 8) /\
    Z.of_nat (List.length out')
      = Z.of_nat (List.length output_bytes) + buffer_length / 8 /\
    be_int out' * 2 ^ (buffer_length mod 8) + buf'
      = be_int output_bytes * 2 ^ buffer_length + bit_buffer /\
    (Forall is_byte output_bytes -> Forall is_byte out').
Proof.
  funelim (drain bit_buffer buffer_length output_bytes); intros Hlen Hbuf.
  - (* one more byte is emitted *)
    clear Heq Heqcall.
    assert (Hpow : 2 ^ buffer_length = 2 ^ (buffer_length - 8) * 256).
    { replace buffer_length with ((buffer_length - 8) + 8) at 1 by lia.
      rewrite Z.pow_add_r by lia. reflexivity. }
    assert (Hp : 0 < 2 ^ (buffer_length - 8)) by (apply Z.pow_pos_nonneg; lia).
    set (p := 2 ^ (buffer_length - 8)) in *.
    assert (Hq : 0 <= bit_buffer / p < 256).
    { split; [apply Z.div_pos; lia |].
      apply Z.div_lt_upper_bound; lia. }
    assert (Hmask : Z.land bit_buffer (Z.shiftl 1 (buffer_length - 8) - 1)
                    = bit_buffer mod p).
    { apply land_low_mask. lia. }
    assert (Hbyte : Z.land (Z.shiftr bit_buffer (buffer_length - 8)) 255
                    = bit_buffer / p).
    { rewrite land_255, Z.shiftr_div_pow2 by lia.
      apply Z.mod_small. exact Hq. }
    rewrite Hmask, Hbyte in *.
    destruct H as (buf' & out' & Heq & Hb & Hl & Hv & Hf).
    { lia. }
    { fold p. apply Z.mod_pos_bound. lia. }
    assert (Hm : (buffer_length - 8) mod 8 = buffer_length mod 8).
    { replace buffer_length with ((buffer_length - 8) + 1 * 8) at 2 by lia.
      now rewrite Z.mod_add by lia. }
    assert (Hd : (buffer_length - 8) / 8 = buffer_length / 8 - 1).
    { replace buffer_length with ((buffer_length - 8) + 1 * 8) at 2 by lia.
      rewrite Z.div_add by lia. lia. }
    rewrite Hm in *.
    exists buf', out'. split; [exact Heq |]. split; [exact Hb |].
    split.
    { rewrite Hl, length_app, Hd. simpl. lia. }
    split.
    { rewrite Hv, be_int_snoc. fold p. rewrite Hpow.
      pose proof (Z.div_mod bit_buffer p ltac:(lia)). nia. }
    { intros Hall. apply Hf. apply Forall_app. split; [exact Hall |].
      constructor; [exact Hq | constructor]. }
  - (* fewer than eight bits are left *)
    clear Heq.
    rewrite Z.mod_small by lia. rewrite Z.div_small by lia.
    exists bit_buffer, output_bytes. repeat split; try lia. auto.
Qed.

(** The state of the outer loop after a whole input. *)
Lemma unpack_loop_spec (input_bytes : list Z) :
  let n := Z.of_nat (List.length input_bytes) in
  exists buf out,
    unpack_loop input_bytes = (buf, (6 * n) mod 8, out) /\
    0 <= buf < 2 ^ ((6 * n) mod 8) /\
    Z.of_nat (List.length out) = (6 * n) / 8 /\
    be_int out * 2 ^ ((6 * n) mod 8) + buf = sixbit_stream input_bytes /\
    Forall is_byte out.
Proof.
  induction input_bytes as [| b bs IH] using rev_ind.
  - exists 0, []. cbn. repeat split; try lia. constructor.
  - cbv zeta in *. destruct IH as (buf & out & Heq & Hb & Hl & Hv & Hf).
    set (n := Z.of_nat (List.length bs)) in *.
    assert (Hn : 0 <= n) by lia.
    assert (Hm : 0 <= (6 * n) mod 8 < 8) by (apply Z.mod_pos_bound; lia).
    set (m := (6 * n) mod 8) in *.
    unfold unpack_loop in *. rewrite fold_left_app, Heq. cbn [fold_left unpack_step].
    pose proof (six_bits_range b) as Hs.
    rewrite lor_shiftl_6 by exact Hs.
    destruct (drain_spec (buf * 64 + Z.land b 63) (m + 6) out)
      as (buf' & out' & Heq' & Hb' & Hl' & Hv' & Hf').
    { lia. }
    { rewrite Z.pow_add_r by lia. change (2 ^ 6) with 64. nia. }
    rewrite length_app, Nat2Z.inj_add. cbn [List.length]. fold n.
    replace (6 * (n + Z.of_nat 1)) with (6 * n + 6) by lia.
    assert (Hmm : (6 * n + 6) mod 8 = (m + 6) mod 8).
    { unfold m. rewrite Zplus_mod_idemp_l. reflexivity. }
    assert (Hdd : (6 * n + 6) / 8 = (6 * n) / 8 + (m + 6) / 8).
    { pose proof (Z.div_mod (6 * n) 8 ltac:(lia)) as E. fold m in E.
      replace (6 * n + 6) with ((m + 6) + (6 * n / 8) * 8) by lia.
      rewrite Z.div_add by lia. lia. }
    rewrite Hmm, Hdd.
    exists buf', out'. split; [exact Heq' |]. split; [exact Hb' |].
    split; [lia |]. split; [| auto].
    rewrite Hv', sixbit_stream_snoc, <- Hv.
    rewrite Z.pow_add_r by lia. change (2 ^ 6) with 64. ring.
Qed.

End CodecFacts.

(** ** Facts about the field decoder *)

Module DecoderFacts.
Import Decoder.

Lemma bit_test (byte i : Z) :
  0 <= i -> (Z.land (Z.shiftr byte i) 1 =? 1) = Z.testbit byte i.
Proof.
  intros Hi. change 1 with (Z.ones 1) at 1.
  rewrite Z.land_ones by lia. change (2 ^ 1) with 2.
  rewrite <- Z.bit0_eqb, Z.shiftr_spec by lia. reflexivity.
Qed.

Lemma byte_bits_length (byte : Z) : List.length (byte_bits byte) = 8%nat.
Proof. reflexivity. Qed.

Lemma byte_bits_nth (byte : Z) (k : nat) :
  (k < 8)%nat ->
  nth_error (byte_bits byte) k = Some (Z.testbit byte (Z.of_nat (7 - k))).
Proof.
  intros Hk. unfold byte_bits.
  do 8 (destruct k as [| k]; [cbn [nth_error map]; rewrite bit_test by lia;
                              reflexivity |]).
  lia.
Qed.

Lemma to_bit_array_length (input_bytes : list Z) :
  List.length (to_bit_array input_bytes) = (8 * List.length input_bytes)%nat.
Proof.
  induction input_bytes as [| b bs IH]; [reflexivity |].
  unfold to_bit_array in *. cbn [flat_map].
  rewrite length_app, byte_bits_length, IH. cbn [List.length]. lia.
Qed.

(** The bit array holds the bits of the byte sequence, MSB first. *)
Lemma to_bit_array_nth (input_bytes : list Z) (k : nat) :
  (k < 8 * List.length input_bytes)%nat ->
  nth_error (to_bit_array input_bytes) k = Some (bit_at input_bytes k).
Proof.
  revert k. induction input_bytes as [| b bs IH]; intros k Hk.
  - cbn in Hk. lia.
  - unfold to_bit_array in *. cbn [flat_map].
    destruct (Nat.lt_ge_cases k 8) as [Hlt | Hge].
    + rewrite nth_error_app1 by (rewrite byte_bits_length; lia).
      rewrite byte_bits_nth by lia. unfold bit_at.
      rewrite Nat.div_small, Nat.mod_small by lia. reflexivity.
    + rewrite nth_error_app2 by (rewrite byte_bits_length; lia).
      rewrite byte_bits_length, IH by (cbn [List.length] in Hk; lia).
      unfold bit_at. f_equal.
      replace k with ((k - 8) + 1 * 8)%nat at 3 4 by lia.
      rewrite Nat.div_add, Nat.Div0.mod_add by lia.
      replace ((k - 8) / 8 + 1)%nat with (S ((k - 8) / 8)) by lia.
      reflexivity.
Qed.

Lemma be_bits_from (bits : list bool) (acc : Z) :
  fold_left (fun a b => 2 * a + Z.b2z b) bits acc
  = acc * 2 ^ Z.of_nat (List.length bits) + be_bits bits.
Proof.
  unfold be_bits. revert acc.
  induction bits as [| b bits IH]; intros acc.
  - cbn. lia.
  - cbn [fold_left List.length]. rewrite IH, (IH (2 * 0 + Z.b2z b)).
    rewrite Nat2Z.inj_succ, Z.pow_succ_r by lia. ring.
Qed.

Lemma be_bits_cons (b : bool) (bits : list bool) :
  be_bits (b :: bits)
  = Z.b2z b * 2 ^ Z.of_nat (List.length bits) + be_bits bits.
Proof.
  unfold be_bits at 1. cbn [fold_left]. rewrite be_bits_from. f_equal.
Qed.

Lemma be_bits_range (bits : list bool) :
  0 <= be_bits bits < 2 ^ Z.of_nat (List.length bits).
Proof.
  induction bits as [| b bits IH]; [cbn; lia |].
  rewrite be_bits_cons. cbn [List.length].
  rewrite Nat2Z.inj_succ, Z.pow_succ_r by lia.
  destruct b; cbn [Z.b2z]; lia.
Qed.

(** In-range indices never raise. *)
Lemma index_in_range {A : Type} (l : list A) (k : nat) :
  (k < List.length l)%nat -> Py.index l (Z.of_nat k) = nth_error l k.
Proof.
  intros Hk. unfold Py.index.
  replace (0 <=? Z.of_nat k) with true by (symmetry; apply Z.leb_le; lia).
  replace (Z.of_nat k <? Z.of_nat (List.length l)) with true
    by (symmetry; apply Z.ltb_lt; lia).
  cbn [andb]. now rewrite Nat2Z.id.
Qed.

(** The loop of [bits_to_int], started at iteration [k] with [m] iterations
    to go, adds the remaining bits with their weights. *)
Lemma bits_loop_spec (bit_array : list bool) (s : nat) :
  forall (m k : nat) (acc : Z),
    (s + k + m <= List.length bit_array)%nat ->
    fold_left (bits_body bit_array (Z.of_nat s) (Z.of_nat (k + m)))
              (map Z.of_nat (seq k m)) (Some acc)
    = Some (acc + be_bits (map (fun j => nth j bit_array false)
                               (seq (s + k) m))).
Proof.
  induction m as [| m IH]; intros k acc Hlen.
  - cbn. f_equal. lia.
  - cbn [seq map fold_left]. unfold bits_body at 2.
    rewrite <- Nat2Z.inj_add, index_in_range by lia.
    rewrite (nth_error_nth' bit_array false) by lia.
    replace (k + S m)%nat with (S k + m)%nat by lia.
    replace (Z.of_nat (S k + m) - 1 - Z.of_nat k) with (Z.of_nat m) by lia.
    rewrite Z.shiftl_1_l.
    rewrite be_bits_cons, length_map, length_seq.
    replace (S (s + k)) with (s + S k)%nat by lia.
    destruct (nth (s + k) bit_array false); cbv zeta;
      rewrite IH by lia; f_equal; cbn [Z.b2z]; lia.
Qed.

(** [bits_to_int] on a range that lies inside the array. *)
Lemma bits_to_int_in_range (bit_array : list bool) (s m : nat) :
  (0 < m)%nat -> (s + m <= List.length bit_array)%nat ->
  bits_to_int bit_array (Z.of_nat s) (Z.of_nat (s + m))
  = Some (be_bits (map (fun j => nth j bit_array false) (seq s m))).
Proof.
  intros Hm Hlen. unfold bits_to_int.
  replace (Z.of_nat s >=? Z.of_nat (s + m)) with false
    by (symmetry; rewrite Z.geb_leb; apply Z.leb_gt; lia).
  replace (Z.of_nat (s + m) >? Z.of_nat (List.length bit_array)) with false
    by (symmetry; rewrite Z.gtb_ltb; apply Z.ltb_ge; lia).
  cbn [orb]. cbv zeta. unfold Py.range.
  replace (Z.of_nat (s + m) - Z.of_nat s) with (Z.of_nat (0 + m)) by lia.
  rewrite Nat2Z.id. cbn [Nat.add].
  change m with (0 + m)%nat at 1.
  rewrite bits_loop_spec by lia.
  rewrite Nat.add_0_r. reflexivity.
Qed.

(** [bits_to_int] on a range that ends past the array. *)
Lemma bits_to_int_short (bit_array : list bool) (start_bit end_bit : Z) :
  Z.of_nat (List.length bit_array) < end_bit ->
  bits_to_int bit_array start_bit end_bit = Some 0.
Proof.
  intros Hlen. unfold bits_to_int.
  replace (end_bit >? Z.of_nat (List.length bit_array)) with true
    by (symmetry; rewrite Z.gtb_ltb; apply Z.ltb_lt; lia).
  now rewrite orb_true_r.
Qed.

(** A field of a byte sequence, as [bits_to_int] reads it from the bit
    array: the value of the bits when the sequence is long enough, zero
    otherwise. *)
Lemma bits_to_int_field (input_bytes : list Z) (s m : nat) :
  (0 < m)%nat ->
  bits_to_int (to_bit_array input_bytes) (Z.of_nat s) (Z.of_nat (s + m))
  = Some (if (s + m <=? 8 * List.length input_bytes)%nat
          then field_value input_bytes s m else 0).
Proof.
  intros Hm.
  destruct (Nat.leb_spec (s + m) (8 * List.length input_bytes)) as [Hle | Hgt].
  - rewrite bits_to_int_in_range by (rewrite ?to_bit_array_length; lia).
    unfold field_value. do 2 f_equal. apply map_ext_in.
    intros j Hj. apply in_seq in Hj.
    apply nth_error_nth. apply to_bit_array_nth. lia.
  - apply bits_to_int_short. rewrite to_bit_array_length. lia.
Qed.

Lemma field_value_range (input_bytes : list Z) (s m : nat) :
  0 <= field_value input_bytes s m < 2 ^ Z.of_nat m.
Proof.
  unfold field_value.
  pose proof (be_bits_range (map (bit_at input_bytes) (seq s m))) as H.
  now rewrite length_map, length_seq in H.
Qed.

(** Neither decoder raises, whatever the length of the input. *)
Lemma car_number_returns (input_bytes : list Z) :
  exists number, car_number input_bytes = Some number.
Proof.
  unfold car_number. cbv zeta.
  change 26 with (Z.of_nat 26). change (45 + 1) with (Z.of_nat (26 + 20)).
  rewrite bits_to_int_field by lia. eexists. reflexivity.
Qed.

Lemma car_owner_returns (input_bytes : list Z) :
  exists owner, car_owner input_bytes = Some owner.
Proof.
  unfold car_owner. cbv zeta.
  change 7 with (Z.of_nat 7). change (25 + 1) with (Z.of_nat (7 + 19)).
  rewrite bits_to_int_field by lia.
  destruct (base27_digits _) as [[[n1 n2] n3] n4]. eexists. reflexivity.
Qed.

End DecoderFacts.

(** ** Facts about the read loop *)

Module ReaderFacts.
Import Codec Decoder DecoderFacts Reader.

Lemma decode_tag_returns (raw_packet : list Z) :
  exists current_tag, decode_tag raw_packet = Some current_tag.
Proof.
  unfold decode_tag. cbv zeta.
  destruct (car_owner_returns (unpack_6bit_to_8bit raw_packet)) as [o ->].
  destruct (car_number_returns (unpack_6bit_to_8bit raw_packet)) as [n ->].
  eexists. reflexivity.
Qed.

Lemma observe_tags_log (last_read : string) (i : Z) (tag : string)
    (st : reader) :
  tags_log (observe last_read i tag st)
  = tags_log st ++ [log_line last_read tag].
Proof.
  unfold observe. cbv zeta.
  destruct (negb (String.eqb (last_tag st) tag)); reflexivity.
Qed.

Lemma observe_last_tag (last_read : string) (i : Z) (tag : string)
    (st : reader) :
  last_tag (observe last_read i tag st) = tag.
Proof.
  unfold observe. cbv zeta.
  destruct (String.eqb (last_tag st) tag) eqn:E; cbn [negb last_tag].
  - now apply String.eqb_eq in E.
  - reflexivity.
Qed.

Lemma observe_shm (last_read : string) (i : Z) (tag : string) (st : reader) :
  shm (observe last_read i tag st)
  = if String.eqb (last_tag st) tag then shm st
    else shm st ++ [tag_file last_read i tag].
Proof.
  unfold observe. cbv zeta.
  destruct (String.eqb (last_tag st) tag); reflexivity.
Qed.

(** A tag equal to [last_tag] writes no file. *)
Lemma observe_same (last_read : string) (i : Z) (tag : string) (st : reader) :
  last_tag st = tag -> shm (observe last_read i tag st) = shm st.
Proof.
  intros <-. rewrite observe_shm, String.eqb_refl. reflexivity.
Qed.

(** A tag that differs from [last_tag] writes one file. *)
Lemma observe_changed (last_read : string) (i : Z) (tag : string)
    (st : reader) :
  last_tag st <> tag ->
  shm (observe last_read i tag st) = shm st ++ [tag_file last_read i tag].
Proof.
  intros Hne. rewrite observe_shm.
  destruct (String.eqb (last_tag st) tag) eqn:E; [| reflexivity].
  apply String.eqb_eq in E. contradiction.
Qed.

End ReaderFacts.

(** ** Facts about the monitor *)

Module MonitorFacts.
Import Monitor.

(** The first loop keeps only the verdict on the file listed last. *)
Lemma scan_last_decides (time_time : nat -> Z) (fs : gmap string tagfile)
    (listed : list string) (file_path : string) (f : tagfile) :
  forall (k : nat) (emit : bool),
    Forall (fun p => is_Some (fs !! p)) listed ->
    fs !! file_path = Some f ->
    scan time_time fs (listed ++ [file_path]) k emit
    = Some (negb (time_time (k + List.length listed)%nat - ctime f <? 300)).
Proof.
  induction listed as [| p listed IH]; intros k emit Hall Hf.
  - cbn [app scan]. unfold getctime. rewrite Hf. cbn [fmap option_fmap option_map].
    rewrite Nat.add_0_r. cbn [List.length].
    destruct (time_time k - ctime f <? 300); reflexivity.
  - inversion Hall as [| ? ? [g Hg] Hrest]; subst.
    cbn [app scan]. unfold getctime at 1. rewrite Hg.
    cbn [fmap option_fmap option_map List.length].
    replace (k + S (List.length listed))%nat
      with (S k + List.length listed)%nat by lia.
    destruct (time_time k - ctime g <? 300); apply IH; assumption.
Qed.

(** The files that the second loop leaves: a listed file that can be read
    and removed is gone, every other file is untouched. *)
Lemma compose_files (tag_files : list string) :
  forall (fs : gmap string tagfile) (body : list (Z * string)) (total : nat)
         (rep : report) (fs' : gmap string tagfile),
    compose tag_files fs body total = Some (rep, fs') ->
    forall p,
      fs' !! p =
      match fs !! p with
      | Some f =>
          if bool_decide (p ∈ tag_files) && readable f && removable f
          then None else Some f
      | None => None
      end.
Proof.
  induction tag_files as [| q rest IH]; intros fs body total rep fs' H p.
  - cbn in H. injection H as _ <-.
    destruct (fs !! p); [| reflexivity].
    rewrite bool_decide_eq_false_2 by apply not_elem_of_nil. reflexivity.
  - cbn [compose] in H. unfold getctime in H.
    destruct (fs !! q) as [fq |] eqn:Hq; [| discriminate].
    cbn [fmap option_fmap option_map] in H.
    unfold process_tag_file in H. rewrite Hq in H.
    assert (Hmem : p <> q -> bool_decide (p ∈ q :: rest) = bool_decide (p ∈ rest)).
    { intros Hne. apply bool_decide_ext. rewrite elem_of_cons. tauto. }
    assert (Hhd : bool_decide (q ∈ q :: rest) = true).
    { apply bool_decide_eq_true_2. apply elem_of_cons. now left. }
    destruct (readable fq) eqn:Hr; [destruct (removable fq) eqn:Hm |].
    + apply IH with (p := p) in H. rewrite H.
      destruct (decide (p = q)) as [-> | Hne].
      * rewrite lookup_delete_eq, Hq, Hhd, Hr, Hm. reflexivity.
      * rewrite lookup_delete_ne by congruence.
        destruct (fs !! p); [| reflexivity]. now rewrite Hmem.
    + apply IH with (p := p) in H. rewrite H.
      destruct (decide (p = q)) as [-> | Hne].
      * rewrite Hq, Hm, !andb_false_r. reflexivity.
      * destruct (fs !! p); [| reflexivity]. now rewrite Hmem.
    + apply IH with (p := p) in H. rewrite H.
      destruct (decide (p = q)) as [-> | Hne].
      * rewrite Hq, Hr, !andb_false_r. reflexivity.
      * destruct (fs !! p); [| reflexivity]. now rewrite Hmem.
Qed.

(** The five attempts: every one is made when every one fails. *)
Lemma send_report_all_fail (send : nat -> bool) :
  (forall i, send i = false) -> send_report send = (false, 5%nat, 100).
Proof.
  intros H. unfold send_report. cbn [seq retry]. rewrite !H. reflexivity.
Qed.

End MonitorFacts.

(** ** The claims about the codec and the decoder *)

Import Codec Decoder CodecFacts DecoderFacts.

(** C5 as stated does not hold: the second output byte is not 0x30. *)
Lemma C5_second_byte_is_not_0x30 :
  unpack_6bit_to_8bit [1; 2; 3] <> [4; 48].
Proof. vm_compute. discriminate. Qed.

(** C5, amended: the bit codec maps the three bytes 0x01, 0x02, 0x03 to the
    two bytes 0x04, 0x20; the two bits left in the buffer (both set) are
    not written out. *)
Theorem C5_unpack_known_input :
  unpack_6bit_to_8bit [1; 2; 3] = [4; 32] /\
  unpack_loop [1; 2; 3] = (3, 2, [4; 32]).
Proof. split; reflexivity. Qed.

(** C7: for every input the output of the bit codec has
    floor(len(input) * 6 / 8) bytes; read as one big-endian number these
    bytes are the stream of six-bit groups without its last
    (6 * len) mod 8 bits. *)
Theorem C7_unpack_length (input_bytes : list Z) :
  let n := Z.of_nat (List.length input_bytes) in
  let out := unpack_6bit_to_8bit input_bytes in
  Z.of_nat (List.length out) = (n * 6) / 8 /\
  Forall is_byte out /\
  be_int out = sixbit_stream input_bytes / 2 ^ ((n * 6) mod 8).
Proof.
  cbv zeta.
  destruct (unpack_loop_spec input_bytes) as (buf & out & Heq & Hb & Hl & Hv & Hf).
  cbv zeta in *. unfold unpack_6bit_to_8bit. rewrite Heq. cbn [snd].
  rewrite (Z.mul_comm _ 6).
  split; [exact Hl |]. split; [exact Hf |].
  rewrite <- Hv.
  set (r := (6 * Z.of_nat (List.length input_bytes)) mod 8) in *.
  assert (Hp : 0 < 2 ^ r).
  { apply Z.pow_pos_nonneg; [lia |]. apply Z.mod_pos_bound. lia. }
  rewrite Z.div_add_l by lia. rewrite Z.div_small by lia. lia.
Qed.

(** C6: the four digits computed by [car_owner] give the value back. *)
Theorem C6_base27_round_trip (V : Z) :
  let '(n1, n2, n3, n4) := base27_digits V in
  n1 * 27 ^ 3 + n2 * 27 ^ 2 + n3 * 27 + n4 = V.
Proof. unfold base27_digits. cbv zeta. ring. Qed.

(** The loop of [bits_to_int] over an array of zero bits. *)
Lemma bits_loop_all_zero (bit_array : list bool) (start_bit slice_len : Z) :
  Forall (fun b => b = false) bit_array ->
  forall (indices : list Z) (acc : Z),
    Forall (fun i => 0 <= start_bit + i < Z.of_nat (List.length bit_array))
           indices ->
    fold_left (bits_body bit_array start_bit slice_len) indices (Some acc)
    = Some acc.
Proof.
  intros Hzero. induction indices as [| i indices IH]; intros acc Hin.
  - reflexivity.
  - inversion Hin as [| ? ? Hi Hrest]; subst.
    cbn [fold_left]. unfold bits_body at 2.
    replace (start_bit + i) with (Z.of_nat (Z.to_nat (start_bit + i))) by lia.
    rewrite index_in_range by lia.
    destruct (nth_error bit_array (Z.to_nat (start_bit + i))) as [b |] eqn:Hb.
    + apply nth_error_In in Hb.
      rewrite List.Forall_forall in Hzero. rewrite (Hzero b Hb).
      apply IH. exact Hrest.
    + apply nth_error_None in Hb. lia.
Qed.

Lemma range_bounds (n i : Z) : In i (Py.range n) -> 0 <= i < n.
Proof.
  unfold Py.range. rewrite in_map_iff. intros (k & <- & Hk).
  apply in_seq in Hk. lia.
Qed.

(** C8: [bits_to_int] returns 0, and raises nothing, when the range is empty
    or ends past the array, and also on any range of 0-based positions of an
    array of zero bits. *)
Theorem C8_bits_to_int_tolerant
    (bit_array : list bool) (start_bit end_bit : Z) :
  start_bit >= end_bit \/
  end_bit > Z.of_nat (List.length bit_array) \/
  (0 <= start_bit /\ Forall (fun b => b = false) bit_array) ->
  bits_to_int bit_array start_bit end_bit = Some 0.
Proof.
  intros H. unfold bits_to_int.
  destruct (start_bit >=? end_bit) eqn:Hge; [reflexivity |].
  destruct (end_bit >? Z.of_nat (List.length bit_array)) eqn:Hgt;
    [reflexivity |].
  cbn [orb]. cbv zeta.
  rewrite Z.geb_leb in Hge. apply Z.leb_gt in Hge.
  rewrite Z.gtb_ltb in Hgt. apply Z.ltb_ge in Hgt.
  destruct H as [H | [H | [Hstart Hzero]]]; [lia | lia |].
  apply bits_loop_all_zero; [exact Hzero |].
  apply List.Forall_forall. intros i Hi. apply range_bounds in Hi. lia.
Qed.

Lemma C8_bits_to_int_tolerant_witness :
  bits_to_int [true; false; true] 1 5 = Some 0.
Proof.
  apply C8_bits_to_int_tolerant. right. left. cbn. lia.
Defined.

(** C3 as stated does not hold: six bytes whose bits 26 to 45 are all set
    give a unit number that needs twenty bits. *)
Lemma C3_unit_number_exceeds_19_bits :
  exists v, car_number [0; 0; 0; 63; 255; 252] = Some v /\ 524287 < v.
Proof. exists 1048575. split; [reflexivity | lia]. Qed.

(** C3, amended: [car_number] raises nothing; on a sequence of at least six
    bytes (46 bits) it returns the value of bits 26 to 45, MSB-first, as an
    unsigned big-endian number, and on a shorter one it returns 0; the
    result lies in 0..1048575, twenty bits. *)
Theorem C3_car_number_field (input_bytes : list Z) :
  exists v,
    car_number input_bytes = Some v /\
    v = (if (46 <=? 8 * List.length input_bytes)%nat
         then field_value input_bytes 26 20 else 0) /\
    0 <= v <= 1048575.
Proof.
  unfold car_number. cbv zeta.
  change 26 with (Z.of_nat 26). change (45 + 1) with (Z.of_nat (26 + 20)).
  rewrite bits_to_int_field by lia.
  eexists. split; [reflexivity |]. split; [reflexivity |].
  destruct (26 + 20 <=? 8 * List.length input_bytes)%nat; [| lia].
  pose proof (field_value_range input_bytes 26 20) as H.
  change (2 ^ Z.of_nat 20) with 1048576 in H. lia.
Qed.

Lemma chr_code (n : Z) :
  0 <= n < 256 -> N_of_ascii (Py.chr n) = Z.to_N n.
Proof. intros Hn. unfold Py.chr. apply N_ascii_embedding. lia. Qed.

Lemma decode_c1_owner_char (n1 : Z) : owner_char (decode_c1 n1) = true.
Proof.
  unfold decode_c1.
  destruct ((0 <=? n1) && (n1 <=? 25)) eqn:Hg; [| reflexivity].
  apply andb_prop in Hg. destruct Hg as [H0 H25].
  apply Z.leb_le in H0, H25.
  unfold owner_char. cbv zeta. rewrite chr_code by lia.
  apply orb_true_intro. left. apply orb_true_intro. left.
  apply andb_true_intro. split; apply N.leb_le; lia.
Qed.

Lemma decode_c2_c4_owner_char (n : Z) : owner_char (decode_c2_c4 n) = true.
Proof.
  unfold decode_c2_c4.
  destruct (n =? 0); [reflexivity |].
  destruct ((1 <=? n) && (n <=? 26)) eqn:Hg; [| reflexivity].
  apply andb_prop in Hg. destruct Hg as [H1 H26].
  apply Z.leb_le in H1, H26.
  unfold owner_char. cbv zeta. rewrite chr_code by lia.
  apply orb_true_intro. left. apply orb_true_intro. left.
  apply andb_true_intro. split; apply N.leb_le; lia.
Qed.

(** C10: [car_owner] returns, without raising, on every byte sequence, and
    what it returns is a string of four characters, each an upper-case
    letter, a space or a question mark. *)
Theorem C10_car_owner_total (input_bytes : list Z) :
  exists owner,
    car_owner input_bytes = Some owner /\
    String.length owner = 4%nat /\
    forallb owner_char (list_ascii_of_string owner) = true.
Proof.
  unfold car_owner. cbv zeta.
  change 7 with (Z.of_nat 7). change (25 + 1) with (Z.of_nat (7 + 19)).
  rewrite bits_to_int_field by lia.
  destruct (base27_digits _) as [[[n1 n2] n3] n4].
  eexists. split; [reflexivity |]. split; [reflexivity |].
  cbn [list_ascii_of_string forallb].
  rewrite decode_c1_owner_char, !decode_c2_c4_owner_char. reflexivity.
Qed.

(** ** The claims about the read loop and the monitor *)

Import Reader ReaderFacts Monitor MonitorFacts Samples.

(** C4 as stated does not hold: a packet whose tag equals [last_tag] still
    gets its line in the log, though it creates no file. *)
Lemma C4_duplicate_is_logged :
  exists st',
    decode_tag zero_packet = Some (last_tag seen_A0) /\
    handle_packet "1.5" 0 zero_packet seen_A0 = Some st' /\
    tags_log st'
    = tags_log seen_A0 ++ [("1.5,A    0" ++ Py.nl)%string] /\
    shm st' = shm seen_A0.
Proof.
  eexists. split; [reflexivity |].
  split; [vm_compute; reflexivity |]. split; reflexivity.
Qed.

(** C4, amended: every decoded packet, duplicate or not, appends exactly one
    line (time, comma, tag) to the log; a tag equal to [last_tag] creates no
    queue file, a changed tag creates exactly one and becomes [last_tag]. *)
Theorem C4_log_line_for_every_observation
    (last_read : string) (i : Z) (raw_packet : list Z) (st : reader) :
  exists current_tag st',
    decode_tag raw_packet = Some current_tag /\
    handle_packet last_read i raw_packet st = Some st' /\
    tags_log st' = tags_log st ++ [log_line last_read current_tag] /\
    shm st' = (if String.eqb (last_tag st) current_tag then shm st
               else shm st ++ [tag_file last_read i current_tag]) /\
    last_tag st' = current_tag.
Proof.
  destruct (decode_tag_returns raw_packet) as [tag Htag].
  exists tag, (observe last_read i tag st).
  unfold handle_packet. rewrite Htag.
  split; [reflexivity |]. split; [reflexivity |].
  split; [apply observe_tags_log |].
  split; [apply observe_shm | apply observe_last_tag].
Qed.

(** C9 as stated does not hold for every value of [last_tag]: when it
    already holds the tag, two more observations of that tag create no
    queue file at all. *)
Lemma C9_repeat_of_last_seen_creates_nothing :
  last_tag seen_A0 = "A    0"%string /\
  shm (observe_all
         [ {| obs_time := "1.5"; obs_index := 0; obs_tag := "A    0" |};
           {| obs_time := "2.5"; obs_index := 0; obs_tag := "A    0" |} ]
         seen_A0) = shm seen_A0.
Proof. split; reflexivity. Qed.

(** C9, amended: from any [last_tag], the second of two consecutive
    observations of a tag T creates no queue file, and the first creates
    exactly one unless [last_tag] is T already; after T, a different tag U
    followed by T again creates exactly two more files, one for U and one
    for T, and leaves [last_tag] at T. *)
Theorem C9_adjacent_duplicates
    (st : reader) (T U : string) (t1 t2 t3 : string) (i1 i2 i3 : Z) :
  U <> T ->
  let first := {| obs_time := t1; obs_index := i1; obs_tag := T |} in
  let again := {| obs_time := t2; obs_index := i2; obs_tag := T |} in
  let other := {| obs_time := t2; obs_index := i2; obs_tag := U |} in
  let back := {| obs_time := t3; obs_index := i3; obs_tag := T |} in
  shm (observe_all [first; again] st) = shm (observe_all [first] st) /\
  shm (observe_all [first] st)
  = (if String.eqb (last_tag st) T then shm st
     else shm st ++ [entry_of first]) /\
  shm (observe_all [first; other; back] st)
  = shm (observe_all [first] st) ++ [entry_of other; entry_of back] /\
  last_tag (observe_all [first; other; back] st) = T.
Proof.
  intros Hne. cbv zeta. unfold observe_all, entry_of.
  cbn [fold_left obs_time obs_index obs_tag].
  split.
  { apply observe_same. apply observe_last_tag. }
  split.
  { apply observe_shm. }
  split.
  { rewrite observe_changed.
    - rewrite observe_changed.
      + rewrite <- app_assoc. reflexivity.
      + rewrite observe_last_tag. congruence.
    - rewrite observe_last_tag. exact Hne. }
  apply observe_last_tag.
Qed.

Lemma C9_adjacent_duplicates_witness :
  shm (observe_all
         [ {| obs_time := "1.5"; obs_index := 0; obs_tag := "A    0" |};
           {| obs_time := "2.5"; obs_index := 1; obs_tag := "B    1" |};
           {| obs_time := "3.5"; obs_index := 2; obs_tag := "A    0" |} ]
         initial)
  = shm (observe_all
           [ {| obs_time := "1.5"; obs_index := 0; obs_tag := "A    0" |} ]
           initial)
    ++ [ tag_file "2.5" 1 "B    1"; tag_file "3.5" 2 "A    0" ].
Proof.
  assert (Hne : "B    1"%string <> "A    0"%string) by discriminate.
  exact (proj1 (proj2 (proj2
    (C9_adjacent_duplicates initial "A    0" "B    1" "1.5" "2.5" "3.5"
                            0 1 2 Hne)))).
Defined.

(** C1 as stated does not hold: all five attempts fail, and the queue file
    of the batch is gone all the same. *)
Lemma C1_entry_deleted_though_delivery_failed :
  let out := poll (fun _ => 400) (fun _ => false) ["b.tag"%string] one_entry in
  is_Some (one_entry !! "b.tag"%string) /\
  option_map delivered out = Some false /\
  option_map attempts_made out = Some 5%nat /\
  option_map (fun o => files_after o !! "b.tag"%string) out = Some None.
Proof.
  cbv zeta. split; [eexists; vm_compute; reflexivity |].
  split; [vm_compute; reflexivity |].
  split; vm_compute; reflexivity.
Qed.

(** C1, amended: queue files are consumed when they are read for the
    report, before any delivery attempt and whatever its result.  After a
    poll that emits a report, exactly the listed files that could be read
    and removed are gone; after a poll that emits none, no file is gone; and
    the files left, like the report, are the same for every behaviour of
    the delivery capability. *)
Theorem C1_entries_consumed_when_read
    (time_time : nat -> Z) (send : nat -> bool) (tag_files : list string)
    (fs : gmap string tagfile) (out : outcome) :
  poll time_time send tag_files fs = Some out ->
  (forall p,
     files_after out !! p =
     match fs !! p with
     | Some f =>
         if bool_decide (is_Some (flushed out)) &&
            bool_decide (p ∈ tag_files) && readable f && removable f
         then None else Some f
     | None => None
     end) /\
  (forall send',
     exists out',
       poll time_time send' tag_files fs = Some out' /\
       files_after out' = files_after out /\
       flushed out' = flushed out).
Proof.
  intros H. unfold poll in *.
  assert (Hidle : forall p,
             fs !! p = match fs !! p with
                       | Some f =>
                           if bool_decide (is_Some (@None report)) &&
                              bool_decide (p ∈ tag_files) &&
                              readable f && removable f
                           then None else Some f
                       | None => None
                       end).
  { intros p. destruct (fs !! p); [| reflexivity].
    rewrite bool_decide_eq_false_2 by (intros [? ?]; discriminate).
    reflexivity. }
  destruct tag_files as [| q rest] eqn:Hl.
  { injection H as <-. cbn [files_after flushed]. split.
    - rewrite <- Hl in Hidle. rewrite <- Hl. exact Hidle.
    - intros send'. eexists. repeat split. }
  rewrite <- Hl in *. clear Hl.
  destruct (scan time_time fs tag_files 0 false) as [[|] |]; [| | discriminate].
  - destruct (compose tag_files fs [] 0) as [[rep fs'] |] eqn:Hc;
      [| discriminate].
    destruct (send_report send) as [[sent attempts] slept].
    injection H as <-. cbn [files_after flushed]. split.
    + intros p. rewrite (compose_files _ _ _ _ _ _ Hc p).
      destruct (fs !! p); [| reflexivity].
      rewrite (bool_decide_eq_true_2 (is_Some (Some rep))) by (eexists; reflexivity).
      reflexivity.
    + intros send'. destruct (send_report send') as [[sent' attempts'] slept'].
      eexists. repeat split.
  - injection H as <-. cbn [files_after flushed]. split.
    + exact Hidle.
    + intros send'. eexists. repeat split.
Qed.

Lemma C1_entries_consumed_when_read_witness :
  exists out,
    poll (fun _ => 400) (fun _ => true) ["b.tag"%string] one_entry = Some out /\
    exists out',
      poll (fun _ => 400) (fun _ => false) ["b.tag"%string] one_entry
      = Some out' /\
      files_after out' = files_after out /\
      flushed out' = flushed out.
Proof.
  eexists. split; [vm_compute; reflexivity |].
  refine (proj2 (C1_entries_consumed_when_read
                   (fun _ => 400) (fun _ => true) ["b.tag"%string] one_entry
                   _ _) (fun _ => false)).
  vm_compute. reflexivity.
Defined.

(** C2 fails on the code: with the 10-second-old entry listed first and the
    400-second-old entry listed last, the poll emits a report with both
    entries and removes both files, although not every entry is 300 seconds
    old; with the listing reversed the same queue is held back. *)
Theorem C2_fresh_entry_listed_first_is_flushed :
  let listing := ["a.tag"%string; "b.tag"%string] in
  let out := poll (fun _ => 400) (fun _ => true) listing two_entries in
  all_older 400 two_entries listing = false /\
  option_map flushed out
  = Some (Some {| rows := [(390, "A    0"%string); (0, "B    1"%string)];
                  total_tags := 2 |}) /\
  option_map (fun o => files_after o !! "a.tag"%string) out = Some None /\
  option_map flushed
    (poll (fun _ => 400) (fun _ => true) (List.rev listing) two_entries)
  = Some None.
Proof.
  cbv zeta. split; [vm_compute; reflexivity |].
  split; [vm_compute; reflexivity |].
  split; vm_compute; reflexivity.
Qed.

(** ** Worked examples *)

(** An empty frame decodes to the owner mark of value 0 and the number 0. *)
Example empty_frame_tag : decode_tag [] = Some "A    0"%string.
Proof. reflexivity. Qed.

(** The largest 19-bit owner value, 524287 = 26 * 27^3 + 17 * 27^2 + 5 * 27
    + 1, has first digit 26, which [decode_c1] does not map to a letter. *)
Example owner_value_all_ones :
  car_owner [1; 255; 255; 192] = Some "?QEA"%string.
Proof. vm_compute. reflexivity. Qed.

(** Three failures and a success: four attempts, 0 + 10 + 20 seconds of
    sleep. *)
Example fourth_attempt_succeeds :
  send_report (fun i => Nat.eqb i 3) = (true, 4%nat, 30).
Proof. reflexivity. Qed.

(** ** Further properties of the bit codec *)

Module CodecMore.
Import Codec CodecFacts ProcessBytes.

Lemma drain_ge (bit_buffer buffer_length : Z) (output_bytes : list Z) :
  8 <= buffer_length ->
  drain bit_buffer buffer_length output_bytes
  = drain (Z.land bit_buffer (Z.shiftl 1 (buffer_length - 8) - 1))
          (buffer_length - 8)
          (output_bytes ++
             [Z.land (Z.shiftr bit_buffer (buffer_length - 8)) 255]).
Proof.
  intros H. rewrite drain_equation_1.
  destruct (Z_le_gt_dec 8 buffer_length); [reflexivity | lia].
Qed.

Lemma drain_lt (bit_buffer buffer_length : Z) (output_bytes : list Z) :
  buffer_length < 8 ->
  drain bit_buffer buffer_length output_bytes
  = (bit_buffer, buffer_length, output_bytes).
Proof.
  intros H. rewrite drain_equation_1.
  destruct (Z_le_gt_dec 8 buffer_length); [lia | reflexivity].
Qed.

(** Both inner loops emit the same bytes when the buffer of [unpack] holds
    the low [len] bits of the buffer of [process_bytes]. *)
Lemma emit_bytes_drain (B len : Z) (out : list Z) :
  0 <= len -> 0 <= B ->
  exists len' out',
    emit_bytes B len out = (len', out') /\
    0 <= len' < 8 /\
    drain (B mod 2 ^ len) len out = (B mod 2 ^ len', len', out').
Proof.
  funelim (emit_bytes B len out); intros Hlen HB.
  - clear Heq Heqcall.
    destruct H as (len' & out' & He & Hl & Hd); [lia | lia |].
    exists len', out'. split; [exact He |]. split; [exact Hl |].
    rewrite drain_ge by lia.
    assert (Hp : 0 < 2 ^ (bits_in_buffer - 8))
      by (apply Z.pow_pos_nonneg; lia).
    assert (Hpow : 2 ^ bits_in_buffer = 2 ^ (bits_in_buffer - 8) * 256).
    { replace bits_in_buffer with ((bits_in_buffer - 8) + 8) at 1 by lia.
      rewrite Z.pow_add_r by lia. reflexivity. }
    set (p := 2 ^ (bits_in_buffer - 8)) in *.
    rewrite land_low_mask by lia. fold p.
    rewrite !land_255, !Z.shiftr_div_pow2 by lia. fold p.
    rewrite Hpow.
    assert (Hsplit : bit_buffer mod (p * 256)
                     = bit_buffer mod p + p * ((bit_buffer / p) mod 256)).
    { apply Z.rem_mul_r; lia. }
    assert (Hlow : (bit_buffer mod (p * 256)) mod p = bit_buffer mod p).
    { rewrite Hsplit, (Z.mul_comm p), Z.mod_add by lia.
      apply Z.mod_mod. lia. }
    assert (Hhigh : (bit_buffer mod (p * 256)) / p = (bit_buffer / p) mod 256).
    { rewrite Hsplit, (Z.mul_comm p), Z.div_add by lia.
      rewrite (Z.div_small (bit_buffer mod p)) by (apply Z.mod_pos_bound; lia).
      lia. }
    rewrite Hlow, Hhigh, Z.mod_mod by lia.
    rewrite land_255, Z.shiftr_div_pow2 in Hd by lia. exact Hd.
  - clear Heq. exists bits_in_buffer, output.
    split; [reflexivity |]. split; [lia |]. apply drain_lt. lia.
Qed.

(** The two outer loops run in step. *)
Lemma process_loop_unpack_loop (input_bytes : list Z) :
  exists B len out,
    process_loop input_bytes = (B, len, out) /\
    0 <= B /\ 0 <= len < 8 /\
    unpack_loop input_bytes = (B mod 2 ^ len, len, out).
Proof.
  induction input_bytes as [| b bs IH] using rev_ind.
  - exists 0, 0, []. repeat split; lia.
  - destruct IH as (B & len & out & Hp & HB & Hl & Hu).
    unfold process_loop, unpack_loop in *.
    rewrite !fold_left_app, Hp, Hu. cbn [fold_left].
    unfold process_step, unpack_step. cbv zeta.
    pose proof (six_bits_range b) as Hs.
    rewrite !lor_shiftl_6 by exact Hs.
    set (six := Z.land b 63) in *.
    assert (H2 : 0 < 2 ^ len) by (apply Z.pow_pos_nonneg; lia).
    assert (Hmod : B mod 2 ^ len * 64 + six = (B * 64 + six) mod 2 ^ (len + 6)).
    { rewrite Z.pow_add_r by lia. change (2 ^ 6) with 64.
      pose proof (Z.mod_pos_bound B (2 ^ len) H2) as Hb.
      pose proof (Z.div_mod B (2 ^ len) ltac:(lia)) as Hdm.
      apply Z.mod_unique with (q := B / 2 ^ len); [left; nia | nia]. }
    rewrite Hmod.
    destruct (emit_bytes_drain (B * 64 + six) (len + 6) out)
      as (len' & out' & He & Hl' & Hd); [lia | nia |].
    rewrite He, Hd. exists (B * 64 + six), len', out'.
    repeat split; try lia; nia.
Qed.

(** The inner loop of [unpack] only appends to its output. *)
Lemma drain_app (pre : list Z) (bit_buffer buffer_length : Z)
    (output_bytes : list Z) :
  drain bit_buffer buffer_length (pre ++ output_bytes)
  = let '(b, l, o) := drain bit_buffer buffer_length output_bytes in
    (b, l, pre ++ o).
Proof.
  funelim (drain bit_buffer buffer_length output_bytes).
  - clear Heq Heqcall. rewrite drain_ge by lia.
    rewrite <- app_assoc. rewrite H. reflexivity.
  - clear Heq. rewrite !drain_lt by lia. reflexivity.
Qed.

Lemma unpack_fold_app (ys pre : list Z) :
  forall (b l : Z) (out : list Z),
    fold_left unpack_step ys (b, l, pre ++ out)
    = let '(b', l', o') := fold_left unpack_step ys (b, l, out) in
      (b', l', pre ++ o').
Proof.
  induction ys as [| y ys IH]; intros b l out; [reflexivity |].
  cbn [fold_left]. unfold unpack_step at 2 4. cbv zeta.
  rewrite drain_app.
  destruct (drain _ _ out) as [[b1 l1] o1]. apply IH.
Qed.

Lemma unpack_fold_from (ys : list Z) (b l : Z) (out : list Z) :
  fold_left unpack_step ys (b, l, out)
  = let '(b', l', o') := fold_left unpack_step ys (b, l, []) in
    (b', l', out ++ o').
Proof. rewrite <- unpack_fold_app, app_nil_r. reflexivity. Qed.

(** [process_bytes], which never cuts its buffer down, and
    [unpack_6bit_to_8bit], which masks it after every byte, return the same
    bytes on every input. *)
Theorem process_bytes_agrees (input_bytes : list Z) :
  process_bytes input_bytes = unpack_6bit_to_8bit input_bytes.
Proof.
  destruct (process_loop_unpack_loop input_bytes)
    as (B & len & out & Hp & _ & _ & Hu).
  unfold process_bytes, unpack_6bit_to_8bit. now rewrite Hp, Hu.
Qed.

(** The two high bits of every input byte are ignored. *)
Theorem unpack_ignores_high_bits (input_bytes : list Z) :
  unpack_6bit_to_8bit (map (fun b => Z.land b 63) input_bytes)
  = unpack_6bit_to_8bit input_bytes.
Proof.
  unfold unpack_6bit_to_8bit, unpack_loop. f_equal.
  generalize (0, 0, @nil Z) as st.
  induction input_bytes as [| b bs IH]; intros st; [reflexivity |].
  cbn [map fold_left]. rewrite <- IH. f_equal.
  unfold unpack_step. destruct st as [[bb bl] bo]. cbv zeta.
  rewrite <- Z.land_assoc. reflexivity.
Qed.

(** The output grows at its end only: what was unpacked from a prefix of
    the input stays in front when more input follows. *)
Theorem unpack_prefix (xs ys : list Z) :
  exists more,
    unpack_6bit_to_8bit (xs ++ ys) = unpack_6bit_to_8bit xs ++ more.
Proof.
  unfold unpack_6bit_to_8bit, unpack_loop. rewrite fold_left_app.
  destruct (fold_left unpack_step xs (0, 0, [])) as [[b l] out].
  rewrite unpack_fold_from.
  destruct (fold_left unpack_step ys (b, l, [])) as [[b' l'] o'].
  exists o'. reflexivity.
Qed.

(** After a whole number of four-byte groups the buffer is empty, so the
    codec unpacks what follows as if it started afresh. *)
Theorem unpack_app_aligned (xs ys : list Z) :
  (List.length xs mod 4 = 0)%nat ->
  unpack_6bit_to_8bit (xs ++ ys)
  = unpack_6bit_to_8bit xs ++ unpack_6bit_to_8bit ys.
Proof.
  intros Hal.
  destruct (unpack_loop_spec xs) as (buf & out & Heq & Hb & _).
  cbv zeta in *.
  assert (Hm : (6 * Z.of_nat (List.length xs)) mod 8 = 0).
  { apply Nat.Div0.div_exact in Hal. rewrite Hal.
    rewrite Nat2Z.inj_mul.
    replace (6 * (Z.of_nat 4 * Z.of_nat (List.length xs / 4)))
      with (3 * Z.of_nat (List.length xs / 4) * 8) by lia.
    apply Z.mod_mul. lia. }
  rewrite Hm in *. change (2 ^ 0) with 1 in Hb.
  assert (buf = 0) by lia. subst buf.
  unfold unpack_6bit_to_8bit, unpack_loop in *.
  rewrite fold_left_app, Heq, unpack_fold_from.
  destruct (fold_left unpack_step ys (0, 0, [])) as [[b' l'] o'].
  reflexivity.
Qed.

Lemma unpack_app_aligned_witness :
  unpack_6bit_to_8bit ([1; 2; 3; 4] ++ [5; 6])
  = unpack_6bit_to_8bit [1; 2; 3; 4] ++ unpack_6bit_to_8bit [5; 6].
Proof. apply unpack_app_aligned. reflexivity. Defined.

(** Four input bytes give three output bytes: the six-bit groups a, b, c, d
    are laid out as aaaaaabb bbbbcccc ccdddddd. *)
Theorem unpack_four_bytes (a b c d : Z) :
  let a6 := a mod 64 in
  let b6 := b mod 64 in
  let c6 := c mod 64 in
  let d6 := d mod 64 in
  unpack_6bit_to_8bit [a; b; c; d]
  = [a6 * 4 + b6 / 16; (b6 mod 16) * 16 + c6 / 4; (c6 mod 4) * 64 + d6].
Proof.
  cbv zeta.
  destruct (unpack_loop_spec [a; b; c; d])
    as (buf & out & Heq & Hb & Hl & Hv & Hf).
  cbv zeta in *. unfold unpack_6bit_to_8bit. rewrite Heq. cbn [snd].
  change ((6 * Z.of_nat (List.length [a; b; c; d])) mod 8) with 0 in *.
  change (6 * Z.of_nat (List.length [a; b; c; d]) / 8) with 3 in Hl.
  change (2 ^ 0) with 1 in *.
  destruct out as [| x [| y [| z [| w out]]]]; cbn [List.length] in Hl; try lia.
  unfold sixbit_stream, be_int in Hv. cbn [fold_left] in Hv.
  rewrite !land_63 in Hv.
  inversion Hf as [| ? ? Hx Hf1]; subst.
  inversion Hf1 as [| ? ? Hy Hf2]; subst.
  inversion Hf2 as [| ? ? Hz _]; subst.
  unfold is_byte in *.
  pose proof (Z.mod_pos_bound a 64 ltac:(lia)).
  pose proof (Z.mod_pos_bound b 64 ltac:(lia)).
  pose proof (Z.mod_pos_bound c 64 ltac:(lia)).
  pose proof (Z.mod_pos_bound d 64 ltac:(lia)).
  set (a6 := a mod 64) in *. set (b6 := b mod 64) in *.
  set (c6 := c mod 64) in *. set (d6 := d mod 64) in *.
  pose proof (Z.div_mod b6 16 ltac:(lia)).
  pose proof (Z.mod_pos_bound b6 16 ltac:(lia)).
  pose proof (Z.div_mod c6 4 ltac:(lia)).
  pose proof (Z.mod_pos_bound c6 4 ltac:(lia)).
  assert (x = a6 * 4 + b6 / 16) by lia.
  assert (y = b6 mod 16 * 16 + c6 / 4) by lia.
  assert (z = c6 mod 4 * 64 + d6) by lia.
  congruence.
Qed.

End CodecMore.

(** ** Further properties of the field decoder *)

Module DecoderMore.
Import Decoder DecoderFacts OwnerMark.

Lemma bits_body_none (bit_array : list bool) (start_bit slice_len : Z)
    (indices : list Z) :
  fold_left (bits_body bit_array start_bit slice_len) indices None = None.
Proof. induction indices as [| i indices IH]; [reflexivity | exact IH]. Qed.

Lemma index_wraps {A : Type} (l : list A) (k : Z) :
  - Z.of_nat (List.length l) <= k < Z.of_nat (List.length l) ->
  exists x, Py.index l k = Some x.
Proof.
  intros Hk. unfold Py.index. cbv zeta.
  destruct (0 <=? k) eqn:H0.
  - apply Z.leb_le in H0.
    replace (k <? Z.of_nat (List.length l)) with true
      by (symmetry; apply Z.ltb_lt; lia).
    cbn [andb].
    destruct (nth_error l (Z.to_nat k)) as [x |] eqn:Hn; [eauto |].
    apply nth_error_None in Hn. lia.
  - apply Z.leb_gt in H0. cbn [andb].
    replace (- Z.of_nat (List.length l) <=? k) with true
      by (symmetry; apply Z.leb_le; lia).
    replace (k <? 0) with true by (symmetry; apply Z.ltb_lt; lia).
    cbn [andb].
    destruct (nth_error l (Z.to_nat (Z.of_nat (List.length l) + k)))
      as [x |] eqn:Hn; [eauto |].
    apply nth_error_None in Hn. lia.
Qed.

Lemma index_below {A : Type} (l : list A) (k : Z) :
  k < - Z.of_nat (List.length l) -> Py.index l k = None.
Proof.
  intros Hk. unfold Py.index. cbv zeta.
  replace (0 <=? k) with false by (symmetry; apply Z.leb_gt; lia).
  replace (- Z.of_nat (List.length l) <=? k) with false
    by (symmetry; apply Z.leb_gt; lia).
  reflexivity.
Qed.

Lemma bits_loop_returns (bit_array : list bool) (start_bit slice_len : Z) :
  forall (indices : list Z) (acc : Z),
    Forall (fun i => - Z.of_nat (List.length bit_array) <= start_bit + i
                     < Z.of_nat (List.length bit_array)) indices ->
    exists v,
      fold_left (bits_body bit_array start_bit slice_len) indices (Some acc)
      = Some v.
Proof.
  induction indices as [| i indices IH]; intros acc Hall.
  - eexists. reflexivity.
  - inversion Hall as [| ? ? Hi Hrest]; subst.
    cbn [fold_left]. unfold bits_body at 2.
    destruct (index_wraps bit_array (start_bit + i) Hi) as [b ->].
    destruct b; apply IH; exact Hrest.
Qed.

(** [bits_to_int] raises exactly when the range passes both tests of the
    guard and starts more than the length of the array below zero, where
    Python's end-relative indexing stops. *)
Theorem bits_to_int_raises (bit_array : list bool) (start_bit end_bit : Z) :
  bits_to_int bit_array start_bit end_bit = None <->
  start_bit < end_bit /\
  end_bit <= Z.of_nat (List.length bit_array) /\
  start_bit < - Z.of_nat (List.length bit_array).
Proof.
  unfold bits_to_int.
  destruct (start_bit >=? end_bit) eqn:Hge.
  { rewrite Z.geb_leb in Hge. apply Z.leb_le in Hge. cbn [orb].
    split; [discriminate | lia]. }
  destruct (end_bit >? Z.of_nat (List.length bit_array)) eqn:Hgt.
  { rewrite Z.gtb_ltb in Hgt. apply Z.ltb_lt in Hgt. cbn [orb].
    split; [discriminate | lia]. }
  rewrite Z.geb_leb in Hge. apply Z.leb_gt in Hge.
  rewrite Z.gtb_ltb in Hgt. apply Z.ltb_ge in Hgt.
  cbn [orb]. cbv zeta.
  destruct (Z_lt_le_dec start_bit (- Z.of_nat (List.length bit_array)))
    as [Hlow | Hok].
  - split; [lia | intros _].
    unfold Py.range.
    destruct (Z.to_nat (end_bit - start_bit)) as [| n] eqn:Hn; [lia |].
    cbn [seq map fold_left]. unfold bits_body at 2.
    rewrite Z.add_0_r, index_below by lia. apply bits_body_none.
  - split; [| lia]. intros Hnone.
    destruct (bits_loop_returns bit_array start_bit (end_bit - start_bit)
                (Py.range (end_bit - start_bit)) 0) as [v Hv].
    { apply List.Forall_forall. intros i Hi.
      unfold Py.range in Hi. apply in_map_iff in Hi.
      destruct Hi as (k & <- & Hk). apply in_seq in Hk. lia. }
    congruence.
Qed.

Lemma bits_loop_bound (bit_array : list bool) (start_bit : Z) :
  forall (m k : nat) (acc v : Z),
    fold_left (bits_body bit_array start_bit (Z.of_nat (k + m)))
              (map Z.of_nat (seq k m)) (Some acc) = Some v ->
    acc <= v < acc + 2 ^ Z.of_nat m.
Proof.
  induction m as [| m IH]; intros k acc v H.
  - cbn in H. injection H as <-. cbn. lia.
  - cbn [seq map fold_left] in H. unfold bits_body at 2 in H.
    destruct (Py.index bit_array (start_bit + Z.of_nat k)) as [b |];
      [| rewrite bits_body_none in H; discriminate].
    replace (k + S m)%nat with (S k + m)%nat in H by lia.
    rewrite Nat2Z.inj_succ, Z.pow_succ_r by lia.
    destruct b; cbv zeta in H; apply IH in H.
    + replace (Z.of_nat (S k + m) - 1 - Z.of_nat k) with (Z.of_nat m) in H
        by lia.
      rewrite Z.shiftl_1_l in H. lia.
    + assert (0 < 2 ^ Z.of_nat m) by (apply Z.pow_pos_nonneg; lia). lia.
Qed.

(** Whatever [bits_to_int] returns is an unsigned number of at most
    [end_bit - start_bit] bits. *)
Theorem bits_to_int_bound (bit_array : list bool) (start_bit end_bit v : Z) :
  bits_to_int bit_array start_bit end_bit = Some v ->
  0 <= v < 2 ^ Z.max 0 (end_bit - start_bit).
Proof.
  unfold bits_to_int. intros H.
  assert (Hpos : 0 < 2 ^ Z.max 0 (end_bit - start_bit))
    by (apply Z.pow_pos_nonneg; lia).
  destruct ((start_bit >=? end_bit)
            || (end_bit >? Z.of_nat (List.length bit_array))) eqn:Hg.
  { injection H as <-. lia. }
  apply orb_false_elim in Hg. destruct Hg as [Hge _].
  rewrite Z.geb_leb in Hge. apply Z.leb_gt in Hge.
  cbv zeta in H. unfold Py.range in H.
  replace (end_bit - start_bit)
    with (Z.of_nat (0 + Z.to_nat (end_bit - start_bit))) in H at 1 by lia.
  apply bits_loop_bound in H.
  rewrite Z2Nat.id in H by lia. rewrite Z.max_r by lia. lia.
Qed.

Lemma bits_to_int_bound_witness :
  0 <= 5 < 2 ^ Z.max 0 (4 - 1).
Proof.
  apply (bits_to_int_bound [false; true; false; true] 1 4 5). reflexivity.
Defined.

Lemma be_bits_app (hi lo : list bool) :
  be_bits (hi ++ lo)
  = be_bits hi * 2 ^ Z.of_nat (List.length lo) + be_bits lo.
Proof. unfold be_bits at 1. rewrite fold_left_app. apply be_bits_from. Qed.

(** A field read in one piece is the two halves read apart and put
    together: the high half moves left by the width of the low half. *)
Theorem bits_to_int_split (bit_array : list bool) (start_bit mid end_bit : Z) :
  0 <= start_bit < mid -> mid < end_bit ->
  end_bit <= Z.of_nat (List.length bit_array) ->
  exists hi lo,
    bits_to_int bit_array start_bit mid = Some hi /\
    bits_to_int bit_array mid end_bit = Some lo /\
    bits_to_int bit_array start_bit end_bit
    = Some (hi * 2 ^ (end_bit - mid) + lo).
Proof.
  intros Hs Hm He.
  set (s := Z.to_nat start_bit). set (a := Z.to_nat (mid - start_bit)).
  set (b := Z.to_nat (end_bit - mid)).
  assert (E1 : start_bit = Z.of_nat s) by lia.
  assert (E2 : mid = Z.of_nat (s + a)) by lia.
  assert (E3 : end_bit = Z.of_nat (s + a + b)) by lia.
  assert (Ha : (0 < a)%nat) by lia.
  assert (Hb : (0 < b)%nat) by lia.
  clearbody s a b. subst start_bit mid end_bit.
  rewrite (bits_to_int_in_range bit_array s a) by lia.
  rewrite (bits_to_int_in_range bit_array (s + a) b) by lia.
  replace (Z.of_nat (s + a + b) - Z.of_nat (s + a)) with (Z.of_nat b) by lia.
  rewrite <- Nat.add_assoc.
  rewrite (bits_to_int_in_range bit_array s (a + b)) by lia.
  do 2 eexists. split; [reflexivity |]. split; [reflexivity |].
  f_equal. rewrite seq_app, map_app, be_bits_app, length_map, length_seq.
  reflexivity.
Qed.

Lemma bits_to_int_split_witness :
  exists hi lo,
    bits_to_int [true; true; false; true; false] 0 2 = Some hi /\
    bits_to_int [true; true; false; true; false] 2 5 = Some lo /\
    bits_to_int [true; true; false; true; false] 0 5
    = Some (hi * 2 ^ (5 - 2) + lo).
Proof.
  apply (bits_to_int_split [true; true; false; true; false] 0 2 5);
    cbn; lia.
Defined.

Lemma bit_at_app (input_bytes more : list Z) (k : nat) :
  (k < 8 * List.length input_bytes)%nat ->
  bit_at (input_bytes ++ more) k = bit_at input_bytes k.
Proof.
  intros Hk. unfold bit_at. rewrite app_nth1; [reflexivity |].
  apply Nat.Div0.div_lt_upper_bound. lia.
Qed.

Lemma field_value_app (input_bytes more : list Z) (s m : nat) :
  (s + m <= 8 * List.length input_bytes)%nat ->
  field_value (input_bytes ++ more) s m = field_value input_bytes s m.
Proof.
  intros H. unfold field_value. f_equal. apply map_ext_in.
  intros k Hk. apply in_seq in Hk. apply bit_at_app. lia.
Qed.

(** What [car_number] and [car_owner] return, by the length of the input. *)
Lemma car_number_value (input_bytes : list Z) :
  car_number input_bytes
  = Some (if (46 <=? 8 * List.length input_bytes)%nat
          then field_value input_bytes 26 20 else 0).
Proof.
  unfold car_number. cbv zeta.
  change 26 with (Z.of_nat 26). change (45 + 1) with (Z.of_nat (26 + 20)).
  now rewrite bits_to_int_field by lia.
Qed.

Lemma car_owner_value (input_bytes : list Z) :
  car_owner input_bytes
  = Some (owner_text (if (26 <=? 8 * List.length input_bytes)%nat
                      then field_value input_bytes 7 19 else 0)).
Proof.
  unfold car_owner, owner_text. cbv zeta.
  change 7 with (Z.of_nat 7). change (25 + 1) with (Z.of_nat (7 + 19)).
  rewrite bits_to_int_field by lia.
  change (7 + 19 <=? 8 * List.length input_bytes)%nat
    with (26 <=? 8 * List.length input_bytes)%nat.
  destruct (base27_digits _) as [[[n1 n2] n3] n4]. reflexivity.
Qed.

(** The owner mark is read from the first four bytes and the unit number
    from the first six: bytes after them change neither. *)
Theorem decoders_ignore_trailing_bytes (input_bytes more : list Z) :
  ((4 <= List.length input_bytes)%nat ->
     car_owner (input_bytes ++ more) = car_owner input_bytes) /\
  ((6 <= List.length input_bytes)%nat ->
     car_number (input_bytes ++ more) = car_number input_bytes).
Proof.
  rewrite !car_number_value, !car_owner_value, length_app.
  split; intros Hlen.
  - replace (26 <=? 8 * (List.length input_bytes + List.length more))%nat
      with true by (symmetry; apply Nat.leb_le; lia).
    replace (26 <=? 8 * List.length input_bytes)%nat
      with true by (symmetry; apply Nat.leb_le; lia).
    rewrite field_value_app by lia. reflexivity.
  - replace (46 <=? 8 * (List.length input_bytes + List.length more))%nat
      with true by (symmetry; apply Nat.leb_le; lia).
    replace (46 <=? 8 * List.length input_bytes)%nat
      with true by (symmetry; apply Nat.leb_le; lia).
    rewrite field_value_app by lia. reflexivity.
Qed.

Lemma decoders_ignore_trailing_bytes_witness :
  car_owner ([1; 2; 3; 4] ++ [7; 8]) = car_owner [1; 2; 3; 4] /\
  car_number ([1; 2; 3; 4; 5; 6] ++ [7; 8]) = car_number [1; 2; 3; 4; 5; 6].
Proof.
  split.
  - apply (proj1 (decoders_ignore_trailing_bytes [1; 2; 3; 4] [7; 8])).
    cbn. lia.
  - apply (proj2 (decoders_ignore_trailing_bytes [1; 2; 3; 4; 5; 6] [7; 8])).
    cbn. lia.
Defined.

(** A frame too short for a field reads as zero there: under four bytes the
    owner mark is that of value 0, under six the unit number is 0. *)
Theorem short_frame_defaults (input_bytes : list Z) :
  ((List.length input_bytes < 4)%nat ->
     car_owner input_bytes = Some "A   "%string) /\
  ((List.length input_bytes < 6)%nat -> car_number input_bytes = Some 0).
Proof.
  rewrite car_number_value, car_owner_value. split; intros H.
  - replace (26 <=? 8 * List.length input_bytes)%nat with false
      by (symmetry; apply Nat.leb_gt; lia).
    reflexivity.
  - replace (46 <=? 8 * List.length input_bytes)%nat with false
      by (symmetry; apply Nat.leb_gt; lia).
    reflexivity.
Qed.

Lemma short_frame_defaults_witness :
  car_owner [255; 255; 255] = Some "A   "%string /\
  car_number [255; 255; 255; 255; 255] = Some 0.
Proof.
  split.
  - apply (proj1 (short_frame_defaults [255; 255; 255])). cbn. lia.
  - apply (proj2 (short_frame_defaults [255; 255; 255; 255; 255])). cbn. lia.
Defined.

(** The bits [lo + n - 1 .. lo] of a number, most significant first, read
    back as a number. *)
Lemma be_bits_testbits (x : Z) (lo n : nat) :
  be_bits (map (fun i => Z.testbit x (Z.of_nat i)) (List.rev (seq lo n)))
  = (x / 2 ^ Z.of_nat lo) mod 2 ^ Z.of_nat n.
Proof.
  induction n as [| n IH].
  - cbn. now rewrite Z.mod_1_r.
  - rewrite seq_S, rev_app_distr. cbn [List.rev app map].
    rewrite be_bits_cons, length_map, length_rev, length_seq, IH.
    rewrite Z.testbit_spec' by lia.
    rewrite Nat2Z.inj_add, Z.pow_add_r by lia.
    rewrite <- Z.div_div by (try apply Z.pow_pos_nonneg; lia).
    set (y := x / 2 ^ Z.of_nat lo).
    rewrite Nat2Z.inj_succ, Z.pow_succ_r by lia.
    assert (Hp : 0 < 2 ^ Z.of_nat n) by (apply Z.pow_pos_nonneg; lia).
    rewrite (Z.mul_comm 2). rewrite Z.rem_mul_r by lia. lia.
Qed.

(** The unit number by shifts and masks: the low six bits of the fourth
    byte, the fifth byte, and the high six bits of the sixth. *)
Theorem car_number_by_bytes (b0 b1 b2 b3 b4 b5 : Z) (more : list Z) :
  car_number (b0 :: b1 :: b2 :: b3 :: b4 :: b5 :: more)
  = Some ((b3 mod 64) * 16384 + (b4 mod 256) * 64 + (b5 / 4) mod 64).
Proof.
  rewrite car_number_value.
  replace (46 <=? 8 * List.length (b0 :: b1 :: b2 :: b3 :: b4 :: b5 :: more))%nat
    with true by (symmetry; apply Nat.leb_le; cbn [List.length]; lia).
  f_equal. unfold field_value.
  change (map (bit_at (b0 :: b1 :: b2 :: b3 :: b4 :: b5 :: more)) (seq 26 20))
    with (map (fun i => Z.testbit b3 (Z.of_nat i)) (List.rev (seq 0 6))
          ++ map (fun i => Z.testbit b4 (Z.of_nat i)) (List.rev (seq 0 8))
          ++ map (fun i => Z.testbit b5 (Z.of_nat i)) (List.rev (seq 2 6))).
  rewrite !be_bits_app, !be_bits_testbits.
  rewrite !length_app, !length_map, !length_rev, !length_seq.
  change (2 ^ Z.of_nat 0) with 1. rewrite !Z.div_1_r.
  change (2 ^ Z.of_nat 2) with 4. change (2 ^ Z.of_nat 6) with 64.
  change (2 ^ Z.of_nat 8) with 256. change (2 ^ Z.of_nat (8 + 6)) with 16384.
  ring.
Qed.

(** The owner value by shifts and masks: the lowest bit of the first byte,
    the second and third bytes, and the two highest bits of the fourth. *)
Theorem car_owner_by_bytes (b0 b1 b2 b3 : Z) (more : list Z) :
  car_owner (b0 :: b1 :: b2 :: b3 :: more)
  = Some (owner_text ((b0 mod 2) * 262144 + (b1 mod 256) * 1024
                      + (b2 mod 256) * 4 + (b3 / 64) mod 4)).
Proof.
  rewrite car_owner_value.
  replace (26 <=? 8 * List.length (b0 :: b1 :: b2 :: b3 :: more))%nat
    with true by (symmetry; apply Nat.leb_le; cbn [List.length]; lia).
  do 2 f_equal. unfold field_value.
  change (map (bit_at (b0 :: b1 :: b2 :: b3 :: more)) (seq 7 19))
    with (map (fun i => Z.testbit b0 (Z.of_nat i)) (List.rev (seq 0 1))
          ++ map (fun i => Z.testbit b1 (Z.of_nat i)) (List.rev (seq 0 8))
          ++ map (fun i => Z.testbit b2 (Z.of_nat i)) (List.rev (seq 0 8))
          ++ map (fun i => Z.testbit b3 (Z.of_nat i)) (List.rev (seq 6 2))).
  rewrite !be_bits_app, !be_bits_testbits.
  rewrite !length_app, !length_map, !length_rev, !length_seq.
  change (2 ^ Z.of_nat 0) with 1. rewrite !Z.div_1_r.
  change (2 ^ Z.of_nat 1) with 2. change (2 ^ Z.of_nat 2) with 4.
  change (2 ^ Z.of_nat 6) with 64. change (2 ^ Z.of_nat 8) with 256.
  change (2 ^ Z.of_nat (8 + 2)) with 1024.
  change (2 ^ Z.of_nat (8 + (8 + 2))) with 262144.
  ring.
Qed.

(** The last three digits are remainders, so they lie in 0..26 whatever
    the value; the first is the quotient by 27^3. *)
Lemma base27_digits_ranges (value : Z) :
  let '(n1, n2, n3, n4) := base27_digits value in
  n1 = value / 19683 /\
  0 <= n2 < 27 /\ 0 <= n3 < 27 /\ 0 <= n4 < 27 /\
  value = n1 * 19683 + n2 * 729 + n3 * 27 + n4.
Proof.
  unfold base27_digits. cbv zeta.
  change (27 ^ 3) with 19683. change (27 ^ 2) with 729.
  Z.div_mod_to_equations. lia.
Qed.

Lemma decode_c1_code (n : Z) :
  0 <= n <= 25 -> N_of_ascii (decode_c1 n) = Z.to_N (n + 65).
Proof.
  intros H. unfold decode_c1.
  replace (0 <=? n) with true by (symmetry; apply Z.leb_le; lia).
  replace (n <=? 25) with true by (symmetry; apply Z.leb_le; lia).
  cbn [andb]. apply chr_code. lia.
Qed.

Lemma decode_c1_sentinel (n : Z) :
  0 <= n -> (decode_c1 n = "?"%char <-> 26 <= n).
Proof.
  intros H0. destruct (Z_le_gt_dec n 25) as [Hle | Hgt].
  - split; [| lia]. intros E.
    apply (f_equal N_of_ascii) in E. rewrite decode_c1_code in E by lia.
    cbn in E. lia.
  - split; [lia |]. intros _. unfold decode_c1.
    replace (n <=? 25) with false by (symmetry; apply Z.leb_gt; lia).
    now rewrite andb_false_r.
Qed.

Lemma decode_c2_c4_code (n : Z) :
  1 <= n <= 26 -> N_of_ascii (decode_c2_c4 n) = Z.to_N (n + 64).
Proof.
  intros H. unfold decode_c2_c4.
  replace (n =? 0) with false by (symmetry; apply Z.eqb_neq; lia).
  replace (1 <=? n) with true by (symmetry; apply Z.leb_le; lia).
  replace (n <=? 26) with true by (symmetry; apply Z.leb_le; lia).
  cbn [andb]. apply chr_code. lia.
Qed.

Lemma decode_c2_c4_never_sentinel (n : Z) :
  0 <= n < 27 -> decode_c2_c4 n <> "?"%char.
Proof.
  intros H E. destruct (Z.eq_dec n 0) as [-> | Hn]; [discriminate |].
  apply (f_equal N_of_ascii) in E. rewrite decode_c2_c4_code in E by lia.
  cbn in E. lia.
Qed.

(** In every owner mark the second, third and fourth characters are letters
    or blanks, never the question mark; the first is the question mark
    exactly when the owner value reaches 26 * 27^3 = 511758. *)
Theorem owner_sentinel_only_first (input_bytes : list Z) :
  exists c1 c2 c3 c4,
    car_owner input_bytes
    = Some (String c1 (String c2 (String c3 (String c4 EmptyString)))) /\
    c2 <> "?"%char /\ c3 <> "?"%char /\ c4 <> "?"%char /\
    (c1 = "?"%char <->
     (4 <= List.length input_bytes)%nat /\
     511758 <= field_value input_bytes 7 19).
Proof.
  rewrite car_owner_value. unfold owner_text.
  set (v := if (26 <=? 8 * List.length input_bytes)%nat
            then field_value input_bytes 7 19 else 0).
  pose proof (base27_digits_ranges v) as Hd.
  destruct (base27_digits v) as [[[n1 n2] n3] n4]. cbv zeta.
  destruct Hd as (H1 & H2 & H3 & H4 & _).
  do 4 eexists. split; [reflexivity |].
  split; [now apply decode_c2_c4_never_sentinel |].
  split; [now apply decode_c2_c4_never_sentinel |].
  split; [now apply decode_c2_c4_never_sentinel |].
  pose proof (field_value_range input_bytes 7 19) as Hr.
  assert (Hv : 0 <= v).
  { unfold v. destruct (26 <=? 8 * List.length input_bytes)%nat; lia. }
  rewrite decode_c1_sentinel by (subst n1; apply Z.div_pos; lia).
  subst n1. unfold v.
  destruct (Nat.leb_spec 26 (8 * List.length input_bytes)) as [Hl | Hl].
  - split.
    + intros H. split; [lia |]. Z.div_mod_to_equations. lia.
    + intros [_ H]. Z.div_mod_to_equations. lia.
  - split.
    + intros H. change (0 / 19683) with 0 in H. lia.
    + intros [H _]. lia.
Qed.

Lemma decode_c1_inj (n m : Z) :
  0 <= n <= 26 -> 0 <= m <= 26 -> decode_c1 n = decode_c1 m -> n = m.
Proof.
  intros Hn Hm E.
  destruct (Z_le_gt_dec n 25) as [Hn' | Hn'];
    destruct (Z_le_gt_dec m 25) as [Hm' | Hm'].
  - apply (f_equal N_of_ascii) in E.
    rewrite !decode_c1_code in E by lia. lia.
  - symmetry in E. rewrite (proj2 (decode_c1_sentinel m ltac:(lia))) in E by lia.
    symmetry in E. apply decode_c1_sentinel in E; lia.
  - rewrite (proj2 (decode_c1_sentinel n ltac:(lia))) in E by lia.
    symmetry in E. apply decode_c1_sentinel in E; lia.
  - lia.
Qed.

Lemma decode_c2_c4_inj (n m : Z) :
  0 <= n < 27 -> 0 <= m < 27 -> decode_c2_c4 n = decode_c2_c4 m -> n = m.
Proof.
  intros Hn Hm E. apply (f_equal N_of_ascii) in E.
  destruct (Z.eq_dec n 0) as [-> | Hn0]; destruct (Z.eq_dec m 0) as [-> | Hm0].
  - reflexivity.
  - rewrite (decode_c2_c4_code m) in E by lia. cbn in E. lia.
  - rewrite (decode_c2_c4_code n) in E by lia. cbn in E. lia.
  - rewrite !decode_c2_c4_code in E by lia. lia.
Qed.

(** No two owner values of the 19-bit field share an owner mark. *)
Lemma owner_text_inj (v w : Z) :
  0 <= v < 524288 -> 0 <= w < 524288 -> owner_text v = owner_text w -> v = w.
Proof.
  intros Hv Hw E. unfold owner_text in E.
  pose proof (base27_digits_ranges v) as Dv.
  pose proof (base27_digits_ranges w) as Dw.
  destruct (base27_digits v) as [[[a1 a2] a3] a4].
  destruct (base27_digits w) as [[[b1 b2] b3] b4].
  cbv zeta in E. injection E as E1 E2 E3 E4.
  destruct Dv as (Ha1 & Ha2 & Ha3 & Ha4 & Hva).
  destruct Dw as (Hb1 & Hb2 & Hb3 & Hb4 & Hwb).
  apply decode_c2_c4_inj in E2, E3, E4; try lia.
  apply decode_c1_inj in E1.
  - lia.
  - subst a1. Z.div_mod_to_equations. lia.
  - subst b1. Z.div_mod_to_equations. lia.
Qed.

(** Two frames of at least four bytes that decode to the same owner mark
    carry the same 19 owner bits. *)
Theorem car_owner_injective (xs ys : list Z) :
  (4 <= List.length xs)%nat -> (4 <= List.length ys)%nat ->
  car_owner xs = car_owner ys ->
  field_value xs 7 19 = field_value ys 7 19.
Proof.
  intros Hx Hy E. rewrite !car_owner_value in E.
  replace (26 <=? 8 * List.length xs)%nat with true in E
    by (symmetry; apply Nat.leb_le; lia).
  replace (26 <=? 8 * List.length ys)%nat with true in E
    by (symmetry; apply Nat.leb_le; lia).
  pose proof (field_value_range xs 7 19) as Rx.
  pose proof (field_value_range ys 7 19) as Ry.
  change (2 ^ Z.of_nat 19) with 524288 in Rx, Ry.
  set (v := field_value xs 7 19) in *.
  set (w := field_value ys 7 19) in *.
  clearbody v w. apply (inj Some) in E.
  apply owner_text_inj; assumption.
Qed.

Lemma car_owner_injective_witness :
  field_value [0; 0; 0; 64] 7 19 = field_value [254; 0; 0; 127; 9] 7 19.
Proof.
  apply car_owner_injective; [cbn; lia | cbn; lia | reflexivity].
Defined.

End DecoderMore.

(** ** Further properties of the read loop *)

Module ReaderMore.
Import Codec CodecFacts Decoder DecoderFacts DecoderMore Reader ReaderFacts.
Import QueueInvariant.

Lemma string_app_length (s t : string) :
  String.length (s ++ t) = (String.length s + String.length t)%nat.
Proof.
  induction s as [| c s IH]; simpl; [reflexivity | f_equal; exact IH].
Qed.

Lemma string_app_inv_tail (t : string) :
  forall s1 s2 : string, (s1 ++ t = s2 ++ t)%string -> s1 = s2.
Proof.
  induction s1 as [| c s1 IH]; intros s2 E.
  - apply (f_equal String.length) in E. rewrite !string_app_length in E.
    destruct s2; [reflexivity | cbn in E; lia].
  - destruct s2 as [| d s2].
    + apply (f_equal String.length) in E. rewrite !string_app_length in E.
      cbn in E. lia.
    + cbn in E. injection E as -> E. f_equal. now apply IH.
Qed.

Lemma to_int_not_nil (n : Z) :
  Z.to_int n <> Decimal.Pos Decimal.Nil /\
  Z.to_int n <> Decimal.Neg Decimal.Nil.
Proof.
  split; intros E; pose proof (DecimalZ.of_to n) as H; rewrite E in H;
    cbn in H; subst n; discriminate.
Qed.

(** [str] gives different texts to different integers. *)
Lemma str_inj (n m : Z) : Py.str n = Py.str m -> n = m.
Proof.
  unfold Py.str. intros E.
  apply DecimalZ.to_int_inj.
  assert (H : Some (Z.to_int n) = Some (Z.to_int m)).
  { rewrite <- (NilZero.isi (Z.to_int n)) by apply to_int_not_nil.
    rewrite <- (NilZero.isi (Z.to_int m)) by apply to_int_not_nil.
    now rewrite E. }
  now injection H.
Qed.

(** Within one read the file name depends on the index alone. *)
Lemma tag_file_name_inj (last_read : string) (i j : Z) (t u : string) :
  fst (tag_file last_read i t) = fst (tag_file last_read j u) -> i = j.
Proof.
  unfold tag_file. cbn [fst]. intros E.
  apply (inj (String.app _)) in E. apply (inj (String.app _)) in E.
  apply (inj (String.app _)) in E. apply string_app_inv_tail in E.
  now apply str_inj.
Qed.

(** What one read does to the log and to the queue: one line for each
    packet, at most one file for each packet, the names of the new files
    numbered from [i] on. *)
Lemma handle_matches_spec (last_read : string) (matches : list (list Z)) :
  forall (i : Z) (st : reader),
    exists st' lines files,
      handle_matches last_read i matches st = Some st' /\
      tags_log st' = tags_log st ++ lines /\
      List.length lines = List.length matches /\
      shm st' = shm st ++ files /\
      (List.length files <= List.length matches)%nat /\
      Forall (fun e => exists j t,
                  i <= j < i + Z.of_nat (List.length matches) /\
                  e = tag_file last_read j t) files.
Proof.
  induction matches as [| raw rest IH]; intros i st.
  - exists st, [], []. cbn. rewrite !app_nil_r. repeat split; auto.
  - cbn [handle_matches]. unfold handle_packet.
    destruct (decode_tag_returns raw) as [tag ->].
    destruct (IH (i + 1) (observe last_read i tag st))
      as (st' & lines & files & Hh & Hlog & Hln & Hshm & Hfn & Hidx).
    rewrite Hh. rewrite observe_tags_log in Hlog. rewrite observe_shm in Hshm.
    assert (Hidx' : Forall (fun e => exists j t,
                i <= j < i + Z.of_nat (List.length (raw :: rest)) /\
                e = tag_file last_read j t) files).
    { eapply List.Forall_impl; [| exact Hidx]. cbn beta.
      intros e (j & t & Hj & ->). exists j, t.
      split; [cbn [List.length]; lia | reflexivity]. }
    destruct (String.eqb (last_tag st) tag).
    + exists st', (log_line last_read tag :: lines), files.
      split; [reflexivity |].
      split; [now rewrite Hlog, <- app_assoc |].
      split; [cbn [List.length]; lia |]. split; [exact Hshm |].
      split; [cbn [List.length]; lia | exact Hidx'].
    + exists st', (log_line last_read tag :: lines),
             (tag_file last_read i tag :: files).
      split; [reflexivity |].
      split; [now rewrite Hlog, <- app_assoc |].
      split; [cbn [List.length]; lia |].
      split; [now rewrite Hshm, <- app_assoc |].
      split; [cbn [List.length]; lia |].
      constructor; [| exact Hidx'].
      exists i, tag. split; [cbn [List.length]; lia | reflexivity].
Qed.

(** A read never raises and only appends: the log gets exactly one line for
    each packet found, duplicates included, and the queue gets at most one
    file for each packet; what was there before stays in front. *)
Theorem read_appends (last_read : string) (i : Z) (matches : list (list Z))
    (st : reader) :
  exists st' lines files,
    handle_matches last_read i matches st = Some st' /\
    tags_log st' = tags_log st ++ lines /\
    List.length lines = List.length matches /\
    shm st' = shm st ++ files /\
    (List.length files <= List.length matches)%nat.
Proof.
  destruct (handle_matches_spec last_read matches i st)
    as (st' & lines & files & H1 & H2 & H3 & H4 & H5 & _).
  exists st', lines, files. auto.
Qed.

Lemma indexed_names_nodup (last_read : string) (files : list (string * string)) :
  forall i : Z,
    Forall (fun e => exists j t, i <= j /\ e = tag_file last_read j t) files ->
    forall t, ~ In (fst (tag_file last_read (i - 1) t)) (map fst files).
Proof.
  intros i Hall t Hin. apply in_map_iff in Hin.
  destruct Hin as (e & He & Hin).
  rewrite List.Forall_forall in Hall.
  destruct (Hall e Hin) as (j & u & Hj & ->).
  apply tag_file_name_inj in He. lia.
Qed.

(** The files that one read creates have pairwise different names, so none
    of them overwrites another. *)
Theorem read_file_names_distinct (last_read : string)
    (matches : list (list Z)) (st : reader) :
  exists st' files,
    handle_matches last_read 0 matches st = Some st' /\
    shm st' = shm st ++ files /\
    List.NoDup (map fst files).
Proof.
  generalize 0 as i. revert st.
  induction matches as [| raw rest IH]; intros st i.
  - exists st, []. cbn. rewrite app_nil_r. repeat split. constructor.
  - cbn [handle_matches]. unfold handle_packet.
    destruct (decode_tag_returns raw) as [tag ->].
    destruct (handle_matches_spec last_read rest (i + 1)
                (observe last_read i tag st))
      as (st' & lines & files & Hh & _ & _ & Hshm & _ & Hidx).
    destruct (IH (observe last_read i tag st) (i + 1))
      as (st2 & files2 & Hh2 & Hshm2 & Hnd).
    rewrite Hh in Hh2. injection Hh2 as <-.
    rewrite Hshm in Hshm2. apply app_inv_head in Hshm2. subst files2.
    rewrite Hh. rewrite observe_shm in Hshm.
    destruct (String.eqb (last_tag st) tag).
    + exists st', files. auto.
    + exists st', (tag_file last_read i tag :: files).
      split; [reflexivity |]. split; [now rewrite Hshm, <- app_assoc |].
      cbn [map]. constructor; [| exact Hnd].
      replace i with ((i + 1) - 1) by lia.
      apply indexed_names_nodup.
      eapply List.Forall_impl; [| exact Hidx]. cbn beta.
      intros e (j & t & Hj & ->). exists j, t. split; [lia | reflexivity].
Qed.

(** A raw packet of at most four bytes unpacks to fewer than four bytes, so
    it decodes to the tag of owner value 0 and unit number 0. *)
Theorem short_packet_tag (raw_packet : list Z) :
  (List.length raw_packet <= 4)%nat ->
  decode_tag raw_packet = Some "A    0"%string.
Proof.
  intros Hlen. unfold decode_tag. cbv zeta.
  destruct (unpack_loop_spec raw_packet) as (buf & out & Heq & _ & Hl & _).
  cbv zeta in Hl.
  assert (Hout : (List.length (unpack_6bit_to_8bit raw_packet) < 4)%nat).
  { unfold unpack_6bit_to_8bit. rewrite Heq. cbn [snd].
    assert (6 * Z.of_nat (List.length raw_packet) / 8 < 4)
      by (apply Z.div_lt_upper_bound; lia).
    lia. }
  destruct (short_frame_defaults (unpack_6bit_to_8bit raw_packet))
    as [Ho Hn].
  rewrite Ho by exact Hout. rewrite Hn by lia. reflexivity.
Qed.

Lemma short_packet_tag_witness :
  decode_tag [63; 63; 63; 63] = Some "A    0"%string.
Proof. apply short_packet_tag. cbn. lia. Defined.

Lemma queue_ok_initial : queue_ok initial.
Proof.
  split.
  - intros pre a b post E. cbn in E. destruct pre; discriminate.
  - intros pre c E. cbn in E. destruct pre; discriminate.
Qed.

Lemma queue_ok_observe (last_read : string) (i : Z) (tag : string)
    (st : reader) :
  queue_ok st -> queue_ok (observe last_read i tag st).
Proof.
  intros [Hadj Hlast]. unfold queue_ok.
  rewrite observe_shm, observe_last_tag.
  destruct (String.eqb (last_tag st) tag) eqn:E.
  - apply String.eqb_eq in E. subst tag. split; assumption.
  - apply String.eqb_neq in E.
    rewrite map_app. cbn [map snd tag_file]. split.
    + intros pre a b post Heq.
      destruct post as [| z post _] using rev_ind.
      * change (pre ++ [a; b]) with (pre ++ [a] ++ [b]) in Heq.
        rewrite app_assoc in Heq. apply app_inj_tail in Heq.
        destruct Heq as [Hpre <-].
        apply Hlast in Hpre. subst a. intros Hab.
        apply string_app_inv_tail in Hab. contradiction.
      * change (pre ++ a :: b :: post ++ [z])
          with (pre ++ (a :: b :: post) ++ [z]) in Heq.
        rewrite app_assoc in Heq. apply app_inj_tail in Heq.
        destruct Heq as [Hpre _]. exact (Hadj _ _ _ _ Hpre).
    + intros pre c Heq. apply app_inj_tail in Heq. now destruct Heq.
Qed.

Lemma queue_ok_observe_all (obs : list observation) :
  forall st, queue_ok st -> queue_ok (observe_all obs st).
Proof.
  induction obs as [| o obs IH]; intros st H; [exact H |].
  cbn [observe_all fold_left]. apply IH. now apply queue_ok_observe.
Qed.

(** However the tags arrive, no two queue files written one after the other
    hold the same text. *)
Theorem queue_never_repeats (obs : list observation)
    (pre : list string) (a b : string) (post : list string) :
  map snd (shm (observe_all obs initial)) = pre ++ a :: b :: post ->
  a <> b.
Proof.
  intros H.
  exact (proj1 (queue_ok_observe_all obs initial queue_ok_initial) _ _ _ _ H).
Qed.

Lemma queue_never_repeats_witness :
  ("A    0" ++ Py.nl)%string <> ("B    1" ++ Py.nl)%string.
Proof.
  apply (queue_never_repeats
           [ {| obs_time := "1.5"; obs_index := 0; obs_tag := "A    0" |};
             {| obs_time := "1.5"; obs_index := 1; obs_tag := "A    0" |};
             {| obs_time := "2.5"; obs_index := 0; obs_tag := "B    1" |} ]
           [] _ _ []).
  reflexivity.
Defined.

End ReaderMore.

(** ** Properties of the frame pattern *)

Module FramesFacts.
Import Frames.

Lemma lazy_group_sound (data : list Z) :
  forall payload n,
    lazy_group data = Some (payload, n) ->
    ~ In end_marker payload /\ n = S (List.length payload) /\
    exists rest, data = payload ++ end_marker :: rest.
Proof.
  induction data as [| b data IH]; intros payload n H; [discriminate |].
  cbn [lazy_group] in H. destruct (b =? end_marker) eqn:Hb.
  - injection H as <- <-. apply Z.eqb_eq in Hb. subst b.
    split; [intros [] |]. split; [reflexivity |]. exists data. reflexivity.
  - destruct (lazy_group data) as [[p m] |]; [| discriminate].
    injection H as <- <-. apply Z.eqb_neq in Hb.
    destruct (IH p m eq_refl) as (Hno & -> & rest & ->).
    split; [intros [E | Hin]; [congruence | contradiction] |].
    split; [reflexivity |]. exists rest. reflexivity.
Qed.

Lemma lazy_group_complete (payload rest : list Z) :
  ~ In end_marker payload ->
  lazy_group (payload ++ end_marker :: rest)
  = Some (payload, S (List.length payload)).
Proof.
  induction payload as [| b payload IH]; intros Hno.
  - reflexivity.
  - cbn [app lazy_group List.length].
    replace (b =? end_marker) with false
      by (symmetry; apply Z.eqb_neq; intros ->; apply Hno; now left).
    rewrite IH by (intros Hin; apply Hno; now right). reflexivity.
Qed.

Lemma lazy_group_none (data : list Z) :
  ~ In end_marker data -> lazy_group data = None.
Proof.
  induction data as [| b data IH]; intros Hno; [reflexivity |].
  cbn [lazy_group].
  replace (b =? end_marker) with false
    by (symmetry; apply Z.eqb_neq; intros ->; apply Hno; now left).
  rewrite IH by (intros Hin; apply Hno; now right). reflexivity.
Qed.

Lemma match_here_sound (data payload : list Z) (n : nat) :
  match_here data = Some (payload, n) -> ~ In end_marker payload.
Proof.
  unfold match_here. destruct data as [| a [| b [| c rest]]]; try discriminate.
  destruct ((a =? 250) && (b =? 0) && (c =? 7)); [| discriminate].
  destruct (lazy_group rest) as [[p m] |] eqn:Hg; [| discriminate].
  intros H. injection H as <- _. now apply lazy_group_sound in Hg.
Qed.

(** The scan behind the bytes that a match covers. *)
Lemma findall_from_skip (covered rest : list Z) :
  findall_from (covered ++ rest) (List.length covered) = findall_from rest 0.
Proof.
  induction covered as [| b covered IH]; [reflexivity |].
  cbn [app List.length]. destruct rest as [| r rest'] eqn:Hr.
  - rewrite app_nil_r in *. cbn [findall_from]. exact IH.
  - cbn [findall_from]. exact IH.
Qed.

(** No payload that the scan returns holds the end marker 0xF5. *)
Theorem findall_payloads_without_end_marker (data : list Z) :
  Forall (fun payload => ~ In end_marker payload) (findall data).
Proof.
  unfold findall. generalize 0%nat as skip.
  induction data as [| b data IH]; intros skip; [constructor |].
  cbn [findall_from]. destruct skip as [| k]; [| apply IH].
  destruct (match_here (b :: data)) as [[payload n] |] eqn:Hm; [| apply IH].
  constructor; [| apply IH]. now apply match_here_sound in Hm.
Qed.

Lemma match_here_other_start (b : Z) (data : list Z) :
  b <> 250 -> match_here (b :: data) = None.
Proof.
  intros Hb. unfold match_here. destruct data as [| c [| d rest]]; try reflexivity.
  replace (b =? 250) with false by (symmetry; now apply Z.eqb_neq).
  reflexivity.
Qed.

Lemma findall_from_head (b : Z) (rest : list Z) :
  findall_from (b :: rest) 0
  = match match_here (b :: rest) with
    | Some (payload, n) => payload :: findall_from rest (Nat.pred n)
    | None => findall_from rest 0
    end.
Proof. reflexivity. Qed.

Lemma frame_shape (payload rest : list Z) :
  frame payload ++ rest
  = 250 :: ([0; 7] ++ payload ++ [end_marker]) ++ rest.
Proof.
  unfold frame, start_marker. cbn [app]. rewrite <- !app_assoc. reflexivity.
Qed.

Lemma match_here_frame (payload rest : list Z) :
  ~ In end_marker payload ->
  match_here (frame payload ++ rest)
  = Some (payload, (3 + S (List.length payload))%nat).
Proof.
  intros Hpay. unfold frame, start_marker. cbn [app].
  unfold match_here. cbn [Z.eqb Pos.eqb andb].
  rewrite <- app_assoc. cbn [app].
  rewrite lazy_group_complete by exact Hpay. reflexivity.
Qed.

(** A frame is found behind any bytes that hold no 0xFA, its payload comes
    back as it was sent when it holds no 0xF5, and the scan goes on behind
    the end marker of the frame. *)
Theorem findall_frame (noise payload rest : list Z) :
  ~ In 250 noise -> ~ In end_marker payload ->
  findall (noise ++ frame payload ++ rest) = payload :: findall rest.
Proof.
  intros Hnoise Hpay. unfold findall.
  induction noise as [| b noise IH].
  - cbn [app]. rewrite frame_shape, findall_from_head.
    rewrite <- frame_shape, match_here_frame by exact Hpay.
    cbn [Nat.add Nat.pred]. f_equal.
    replace (S (S (S (List.length payload))))
      with (List.length ([0; 7] ++ payload ++ [end_marker]))
      by (rewrite !length_app; cbn [List.length]; lia).
    apply findall_from_skip.
  - cbn [app]. rewrite findall_from_head.
    rewrite match_here_other_start by (intros ->; apply Hnoise; now left).
    apply IH. intros Hin. apply Hnoise. now right.
Qed.

Lemma findall_frame_witness :
  findall ([1; 2] ++ frame [9; 250; 8] ++ frame [4])
  = [9; 250; 8] :: findall (frame [4]).
Proof.
  apply findall_frame.
  - cbn. intros [H | [H | []]]; discriminate.
  - cbn. intros [H | [H | [H | []]]]; discriminate.
Defined.

Lemma findall_from_absent (x : Z) :
  (forall d, ~ In x d -> match_here d = None) ->
  forall data, ~ In x data -> forall skip, findall_from data skip = [].
Proof.
  intros Hx. induction data as [| b data IH]; intros Hno skip; [reflexivity |].
  assert (Hrest : forall k, findall_from data k = []).
  { apply IH. intros Hin. apply Hno. now right. }
  cbn [findall_from]. destruct skip as [| k]; [| apply Hrest].
  rewrite (Hx (b :: data) Hno). apply Hrest.
Qed.

Lemma match_here_no_end (data : list Z) :
  ~ In end_marker data -> match_here data = None.
Proof.
  intros Hno. unfold match_here.
  destruct data as [| a [| b [| c rest]]]; try reflexivity.
  rewrite lazy_group_none.
  - now destruct ((a =? 250) && (b =? 0) && (c =? 7)).
  - intros Hin. apply Hno. now do 3 right.
Qed.

Lemma match_here_no_start (data : list Z) :
  ~ In 250 data -> match_here data = None.
Proof.
  intros Hno. destruct data as [| a rest]; [reflexivity |].
  apply match_here_other_start. intros ->. apply Hno. now left.
Qed.

(** A read without the end marker 0xF5, or without the byte 0xFA that
    begins the start marker, holds no frame: a frame that is not closed is
    dropped. *)
Theorem findall_nothing (data : list Z) :
  ~ In end_marker data \/ ~ In 250 data -> findall data = [].
Proof.
  intros [H | H]; unfold findall.
  - now apply (findall_from_absent end_marker match_here_no_end).
  - now apply (findall_from_absent 250 match_here_no_start).
Qed.

Lemma findall_nothing_witness :
  findall [250; 0; 7; 1; 2; 3] = [].
Proof.
  apply findall_nothing. left. cbn.
  intros [H | [H | [H | [H | [H | [H | []]]]]]]; discriminate.
Defined.

End FramesFacts.

(** ** Properties of the status response *)

Module StatusFacts.
Import Status DecoderFacts.

Lemma index_above {A : Type} (l : list A) (k : Z) :
  Z.of_nat (List.length l) <= k -> Py.index l k = None.
Proof.
  intros Hk. unfold Py.index. cbv zeta.
  replace (k <? Z.of_nat (List.length l)) with false
    by (symmetry; apply Z.ltb_ge; lia).
  rewrite andb_false_r.
  replace (k <? 0) with false by (symmetry; apply Z.ltb_ge; lia).
  now rewrite andb_false_r.
Qed.

Lemma index_at {A : Type} (l : list A) (k : nat) :
  (k < List.length l)%nat ->
  exists x, Py.index l (Z.of_nat k) = Some x /\ nth_error l k = Some x.
Proof.
  intros Hk. rewrite index_in_range by exact Hk.
  destruct (nth_error l k) as [x |] eqn:E; [eauto |].
  apply nth_error_None in E. lia.
Qed.

(** A response of one to six bytes makes [get_reader_status] raise
    [IndexError]; an empty one and one of seven bytes or more do not. *)
Theorem status_raises (received_data : list Z) :
  get_reader_status received_data = None <->
  (0 < List.length received_data < 7)%nat.
Proof.
  unfold get_reader_status.
  destruct (Z.of_nat (List.length received_data) >? 0) eqn:Hpos.
  - rewrite Z.gtb_ltb in Hpos. apply Z.ltb_lt in Hpos.
    destruct (Nat.lt_ge_cases (List.length received_data) 7) as [Hlt | Hge].
    + split; [lia | intros _].
      destruct (Nat.lt_ge_cases 4 (List.length received_data)) as [H4 | H4].
      * destruct (index_at received_data 4 H4) as (b1 & Hb1 & _).
        change (Z.of_nat 4) with 4 in Hb1. rewrite Hb1.
        rewrite (index_above received_data 6) by lia. reflexivity.
      * rewrite (index_above received_data 4) by lia. reflexivity.
    + split; [| lia].
      destruct (index_at received_data 4 ltac:(lia)) as (b1 & Hb1 & _).
      destruct (index_at received_data 6 ltac:(lia)) as (b2 & Hb2 & _).
      change (Z.of_nat 4) with 4 in Hb1. change (Z.of_nat 6) with 6 in Hb2.
      rewrite Hb1, Hb2. discriminate.
  - rewrite Z.gtb_ltb in Hpos. apply Z.ltb_ge in Hpos.
    split; [discriminate | lia].
Qed.

(** When a status is logged, the RF flag is bit 6 of the fifth byte, the
    frequency its two low bits and the power the seventh byte as it is. *)
Theorem status_fields (received_data : list Z) (status frequency power : Z) :
  get_reader_status received_data = Some (Some (status, frequency, power)) ->
  exists b1,
    nth_error received_data 4 = Some b1 /\
    nth_error received_data 6 = Some power /\
    status = Z.b2z (Z.testbit b1 6) /\
    frequency = b1 mod 4.
Proof.
  unfold get_reader_status.
  destruct (Z.of_nat (List.length received_data) >? 0); [| discriminate].
  destruct (Nat.lt_ge_cases 4 (List.length received_data)) as [H4 | H4];
    [| rewrite (index_above received_data 4) by lia; discriminate].
  destruct (index_at received_data 4 H4) as (b1 & Hb1 & Hn1).
  change (Z.of_nat 4) with 4 in Hb1. rewrite Hb1.
  destruct (Nat.lt_ge_cases 6 (List.length received_data)) as [H6 | H6];
    [| rewrite (index_above received_data 6) by lia; discriminate].
  destruct (index_at received_data 6 H6) as (b2 & Hb2 & Hn2).
  change (Z.of_nat 6) with 6 in Hb2. rewrite Hb2.
  cbv zeta. intros H. injection H as <- <- <-.
  exists b1. split; [exact Hn1 |]. split; [exact Hn2 |]. split.
  - change 1 with (Z.ones 1) at 1. rewrite Z.land_ones by lia.
    rewrite Z.testbit_spec' by lia. rewrite Z.shiftr_div_pow2 by lia.
    reflexivity.
  - change 3 with (Z.ones 2). rewrite Z.land_ones by lia. reflexivity.
Qed.

Lemma status_fields_witness :
  exists b1,
    nth_error [250; 0; 6; 0; 67; 0; 100; 245] 4 = Some b1 /\
    nth_error [250; 0; 6; 0; 67; 0; 100; 245] 6 = Some 100 /\
    1 = Z.b2z (Z.testbit b1 6) /\
    3 = b1 mod 4.
Proof.
  apply (status_fields [250; 0; 6; 0; 67; 0; 100; 245] 1 3 100).
  reflexivity.
Defined.

End StatusFacts.

(** ** Properties of the tag stripper *)

Module StripTagsFacts.
Import StripTags.

(** Where no tag can close, nothing is removed up to the end of the line,
    so no tag can close in the result either. *)
Lemma tag_end_strip (s : string) :
  tag_end s = None -> tag_end (strip_from s 0) = None.
Proof.
  induction s as [| c s IH]; intros H; [reflexivity |].
  cbn [tag_end] in H. cbn [strip_from].
  destruct (Ascii.eqb c ">") eqn:Hgt; [discriminate |].
  destruct (Ascii.eqb c "010") eqn:Hnl.
  - destruct (Ascii.eqb c "<") eqn:Hlt.
    + apply Ascii.eqb_eq in Hnl, Hlt. congruence.
    + cbn [tag_end]. now rewrite Hgt, Hnl.
  - destruct (tag_end s) as [n |] eqn:Hs; [discriminate |].
    destruct (Ascii.eqb c "<"); cbn [tag_end]; rewrite Hgt, Hnl, IH;
      reflexivity.
Qed.

Lemma strip_from_tag_free (s : string) :
  forall skip, tag_free (strip_from s skip).
Proof.
  induction s as [| c s IH]; intros skip; [exact I |].
  cbn [strip_from]. destruct skip as [| k]; [| apply IH].
  destruct (Ascii.eqb c "<") eqn:Hlt.
  - destruct (tag_end s) as [n |] eqn:Hs; [apply IH |].
    cbn [tag_free]. split; [| apply IH].
    intros _. now apply tag_end_strip.
  - cbn [tag_free]. split; [| apply IH].
    intros ->. discriminate.
Qed.

(** In the stripped text no [<] has a [>] behind it on its line: every tag
    that the pattern can match is gone. *)
Theorem stripped_is_tag_free (html_string : string) :
  tag_free (strip_html_tags_regex html_string).
Proof. apply strip_from_tag_free. Qed.

Lemma strip_from_fixed (s : string) :
  tag_free s -> strip_from s 0 = s.
Proof.
  induction s as [| c s IH]; intros H; [reflexivity |].
  cbn [tag_free] in H. destruct H as [Hc Hs].
  cbn [strip_from]. destruct (Ascii.eqb c "<") eqn:Hlt.
  - apply Ascii.eqb_eq in Hlt. rewrite (Hc Hlt), IH by exact Hs. reflexivity.
  - rewrite IH by exact Hs. reflexivity.
Qed.

(** A text in which no [<] is closed on its line, in particular a text
    without [<], comes back unchanged. *)
Theorem strip_keeps_tag_free (html_string : string) :
  tag_free html_string -> strip_html_tags_regex html_string = html_string.
Proof. apply strip_from_fixed. Qed.

Lemma strip_keeps_tag_free_witness :
  strip_html_tags_regex ("x < y" ++ Py.nl ++ "z > w")
  = ("x < y" ++ Py.nl ++ "z > w")%string.
Proof.
  apply strip_keeps_tag_free. cbn.
  repeat split; try discriminate; intros _; reflexivity.
Defined.

(** Stripping once is enough: a second pass changes nothing. *)
Theorem strip_idempotent (html_string : string) :
  strip_html_tags_regex (strip_html_tags_regex html_string)
  = strip_html_tags_regex html_string.
Proof. apply strip_from_fixed, strip_from_tag_free. Qed.

End StripTagsFacts.

(** ** Further properties of the monitor *)

Module MonitorMore.
Import Monitor MonitorFacts Samples ReportRows.

Lemma scan_last_decides_witness :
  scan (fun _ => 400) two_entries (["a.tag"%string] ++ ["b.tag"%string]) 0 false
  = Some (negb (400 - ctime (tag_entry 0 "B    1") <? 300)).
Proof.
  apply (scan_last_decides (fun _ => 400) two_entries ["a.tag"%string]
           "b.tag"%string (tag_entry 0 "B    1") 0%nat false).
  - constructor; [| constructor]. eexists. vm_compute. reflexivity.
  - vm_compute. reflexivity.
Defined.

(** A queue in which every listed entry is at least 300 seconds old is
    emitted, in whatever order the entries are listed. *)
Theorem aged_queue_is_emitted (now : Z) (fs : gmap string tagfile)
    (tag_files : list string) (k : nat) (emit : bool) :
  tag_files <> [] ->
  all_older now fs tag_files = true ->
  scan (fun _ => now) fs tag_files k emit = Some true.
Proof.
  intros Hne Hall. revert k emit.
  induction tag_files as [| p rest IH]; intros k emit; [contradiction |].
  cbn [all_older forallb] in Hall. apply andb_prop in Hall.
  destruct Hall as [Hp Hrest].
  cbn [scan]. destruct (getctime fs p) as [c |]; [| discriminate].
  apply negb_true_iff in Hp. rewrite Hp.
  destruct rest as [| q rest']; [reflexivity |].
  apply IH; [discriminate | exact Hrest].
Qed.

Lemma aged_queue_is_emitted_witness :
  scan (fun _ => 700) two_entries ["b.tag"%string; "a.tag"%string] 0 false
  = Some true.
Proof.
  apply aged_queue_is_emitted; [discriminate | vm_compute; reflexivity].
Defined.


Lemma scan_missing (time_time : nat -> Z) (fs : gmap string tagfile)
    (tag_files : list string) (missing : string) :
  In missing tag_files -> fs !! missing = None ->
  forall k emit, scan time_time fs tag_files k emit = None.
Proof.
  induction tag_files as [| p rest IH]; intros Hin Hm k emit; [contradiction |].
  cbn [scan]. unfold getctime.
  destruct (fs !! p) as [f |] eqn:Hp; cbn [fmap option_fmap option_map];
    [| reflexivity].
  destruct Hin as [-> | Hin]; [congruence |].
  destruct (time_time k - ctime f <? 300); now apply IH.
Qed.





(** A listed file that is gone when the poll looks at it makes the poll
    raise: nothing in [monitor_directory] catches the error of
    [os.path.getctime]. *)
Theorem poll_raises_on_missing_file (time_time : nat -> Z)
    (send : nat -> bool) (tag_files : list string)
    (fs : gmap string tagfile) (missing : string) :
  In missing tag_files -> fs !! missing = None ->
  poll time_time send tag_files fs = None.
Proof.
  intros Hin Hm. unfold poll.
  destruct tag_files as [| q rest] eqn:Hl; [contradiction |].
  rewrite <- Hl in *. now rewrite (scan_missing _ _ _ missing Hin Hm).
Qed.

Lemma poll_raises_on_missing_file_witness :
  poll (fun _ => 700) (fun _ => true) ["b.tag"%string; "c.tag"%string]
       one_entry = None.
Proof.
  apply (poll_raises_on_missing_file _ _ _ _ "c.tag"%string).
  - right. now left.
  - vm_compute. reflexivity.
Defined.

(** When attempt [k] is the first to succeed, the loop stops there: it has
    made [k + 1] attempts and slept 0 + 10 + ... + 10 * (k - 1) seconds. *)
Theorem send_report_first_success (send : nat -> bool) (k : nat) :
  (k < 5)%nat -> send k = true ->
  (forall i, (i < k)%nat -> send i = false) ->
  send_report send = (true, S k, 5 * Z.of_nat k * (Z.of_nat k - 1)).
Proof.
  intros Hk Hs Hf. unfold send_report. cbn [seq retry].
  destruct k as [| [| [| [| [| k]]]]]; [| | | | | lia].
  - rewrite Hs. reflexivity.
  - rewrite (Hf 0%nat), Hs by lia. reflexivity.
  - rewrite (Hf 0%nat), (Hf 1%nat), Hs by lia. reflexivity.
  - rewrite (Hf 0%nat), (Hf 1%nat), (Hf 2%nat), Hs by lia. reflexivity.
  - rewrite (Hf 0%nat), (Hf 1%nat), (Hf 2%nat), (Hf 3%nat), Hs by lia.
    reflexivity.
Qed.

Lemma send_report_first_success_witness :
  send_report (fun i => Nat.eqb i 3) = (true, 4%nat, 5 * Z.of_nat 3 * (Z.of_nat 3 - 1)).
Proof.
  apply send_report_first_success; [lia | reflexivity |].
  intros i Hi. apply Nat.eqb_neq. lia.
Defined.

(** When the five attempts all fail the loop gives up: it has slept
    0 + 10 + 20 + 30 + 40 seconds, the last 40 after the last attempt. *)
Theorem send_report_exhausted (send : nat -> bool) :
  (forall i, (i < 5)%nat -> send i = false) ->
  send_report send = (false, 5%nat, 100).
Proof.
  intros H. unfold send_report. cbn [seq retry].
  rewrite !H by lia. reflexivity.
Qed.

Lemma send_report_exhausted_witness :
  send_report (fun i => Nat.leb 5 i) = (false, 5%nat, 100).
Proof.
  apply send_report_exhausted. intros i Hi. apply Nat.leb_gt. lia.
Defined.

End MonitorMore.
